(** * Highcharts data layer: DataConverter, DataParser, DataStore

    A shallow embedding of the value converter, of the table/column/series
    conversion protocol and of the store's column export, together with the
    properties stated about them.

    JavaScript values are modelled as the code uses them:
    - strings are [string]s of 8-bit characters (the inputs of interest are
      ASCII; a character is a UTF-16 code unit below 256);
    - numbers are IEEE 754 binary64 values, the kernel's [float];
    - objects used as records are association lists kept in the order in
      which [Object.keys] enumerates them;
    - arrays are lists, a hole being read as [undefined]. *)

From Stdlib Require Import ZArith List String Ascii Bool Lia Arith.
From Stdlib Require Import PrimFloat SpecFloat FloatOps.
From Stdlib Require Import Permutation.
From Stdlib Require Decimal DecimalString DecimalNat DecimalN.
Import ListNotations.

Local Open Scope string_scope.
Local Open Scope Z_scope.

(* ===================================================================== *)
(** * The JavaScript platform                                             *)
(* ===================================================================== *)

Module JS.

(** ** Characters and strings *)

Definition chars (s : string) : list ascii := list_ascii_of_string s.
Definition str (l : list ascii) : string := string_of_list_ascii l.

Definition code (c : ascii) : nat := nat_of_ascii c.

Definition is_digit (c : ascii) : bool :=
  (48 <=? code c)%nat && (code c <=? 57)%nat.

(** [\s]: tab, line feed, vertical tab, form feed, carriage return, space and
    the no-break space. *)
Definition is_space (c : ascii) : bool :=
  let n := code c in
  ((9 <=? n)%nat && (n <=? 13)%nat) || (n =? 32)%nat || (n =? 160)%nat.

(** Line terminators, which [.] does not match. *)
Definition is_line_terminator (c : ascii) : bool :=
  let n := code c in (n =? 10)%nat || (n =? 13)%nat.

Definition is_char (a c : ascii) : bool := Ascii.eqb a c.

Definition one_of (s : string) (c : ascii) : bool :=
  existsb (Ascii.eqb c) (chars s).

Definition digit_val (c : ascii) : Z := Z.of_nat (code c) - 48.

(** The value of a run of decimal digits. *)
Definition digits_val (l : list ascii) : Z :=
  fold_left (fun acc c => 10 * acc + digit_val c) l 0.

Fixpoint span (p : ascii -> bool) (l : list ascii) : list ascii * list ascii :=
  match l with
  | [] => ([], [])
  | c :: l' =>
      if p c then let (a, b) := span p l' in (c :: a, b) else ([], l)
  end.

Definition drop_while (p : ascii -> bool) (l : list ascii) : list ascii :=
  snd (span p l).

(** [String.prototype.trim]. *)
Definition trim_chars (l : list ascii) : list ascii :=
  rev (drop_while is_space (rev (drop_while is_space l))).

Definition String_trim (s : string) : string := str (trim_chars (chars s)).

(** [s.split(sep)] for a one-character separator. *)
Fixpoint split_chars (sep : ascii) (cur : list ascii) (l : list ascii)
  : list (list ascii) :=
  match l with
  | [] => [rev cur]
  | c :: l' =>
      if Ascii.eqb c sep then rev cur :: split_chars sep [] l'
      else split_chars sep (c :: cur) l'
  end.

Definition String_split (sep : ascii) (s : string) : list string :=
  map str (split_chars sep [] (chars s)).

(** [arr.join(sep)]. *)
Fixpoint Array_join (sep : string) (l : list string) : string :=
  match l with
  | [] => ""
  | [x] => x
  | x :: l' => x ++ sep ++ Array_join sep l'
  end.

(** Decimal rendering of a natural number, as [String(n)] gives it. *)
Definition nat_to_string (n : nat) : string :=
  DecimalString.NilEmpty.string_of_uint (Nat.to_uint n).

(** ** Numbers *)

Definition number := float.

Definition NaN : number := nan.

(** The double nearest to an integer. *)
Definition of_Z (z : Z) : number :=
  SF2Prim (binary_normalize prec emax z 0 false).

(** The double nearest to [m * 10^e], for [m > 0]; [neg] is the sign. *)
Definition of_decimal (neg : bool) (m : positive) (e : Z) : number :=
  match e with
  | Zneg p =>
      SF2Prim (SFdiv prec emax (S754_finite neg m 0)
                 (S754_finite false (Pos.pow 10 p) 0))
  | _ => SF2Prim (binary_normalize prec emax
                    (cond_Zopp neg (Zpos m * 10 ^ e)) 0 neg)
  end.

Definition signed_zero (neg : bool) : number :=
  if neg then neg_zero else zero.

Definition signed_infinity (neg : bool) : number :=
  if neg then neg_infinity else infinity.

Definition of_sci (neg : bool) (m : Z) (e : Z) : number :=
  match m with
  | Zpos p => of_decimal neg p e
  | _ => signed_zero neg
  end.

Definition isNaN (x : number) : bool := is_nan x.

(** [a === b], [a < b], [a > b] on numbers. *)
Definition strict_eq (a b : number) : bool := PrimFloat.eqb a b.
Definition lt (a b : number) : bool := PrimFloat.ltb a b.
Definition gt (a b : number) : bool := PrimFloat.ltb b a.
Definition le (a b : number) : bool := PrimFloat.leb a b.

(** Truthiness of a number: neither zero nor NaN. *)
Definition truthy (x : number) : bool :=
  negb (is_nan x) && negb (is_zero x).

(** *** Numeric literals in strings

    [StrDecimalLiteral]: an optional sign, then [Infinity] or decimal digits
    with an optional fraction and an optional exponent.  The scanner returns
    the value of the longest prefix that is such a literal and the rest. *)

Definition starts_with (p l : list ascii) : option (list ascii) :=
  (fix go (p l : list ascii) : option (list ascii) :=
     match p, l with
     | [], _ => Some l
     | a :: p', b :: l' => if Ascii.eqb a b then go p' l' else None
     | _ :: _, [] => None
     end) p l.

Definition scan_sign (l : list ascii) : bool * list ascii :=
  match l with
  | c :: l' =>
      if is_char "-" c then (true, l')
      else if is_char "+" c then (false, l')
      else (false, l)
  | [] => (false, l)
  end.

(** The exponent part [e[+-]digits], when present and well formed. *)
Definition scan_exponent (l : list ascii) : Z * list ascii :=
  match l with
  | c :: l' =>
      if is_char "e" c || is_char "E" c then
        let (neg, l1) := scan_sign l' in
        let (ds, l2) := span is_digit l1 in
        match ds with
        | [] => (0, l)
        | _ => (cond_Zopp neg (digits_val ds), l2)
        end
      else (0, l)
  | [] => (0, l)
  end.

Definition scan_decimal (l : list ascii) : option (number * list ascii) :=
  let (neg, l0) := scan_sign l in
  match starts_with (chars "Infinity") l0 with
  | Some rest => Some (signed_infinity neg, rest)
  | None =>
      let (ip, l1) := span is_digit l0 in
      let (fp, l2) :=
        match l1 with
        | c :: l1' => if is_char "." c then span is_digit l1' else ([], l1)
        | [] => ([], l1)
        end in
      match ip, fp with
      | [], [] => None
      | _, _ =>
          let (ex, l3) := scan_exponent l2 in
          Some (of_sci neg (digits_val (ip ++ fp)%list)
                  (ex - Z.of_nat (List.length fp)), l3)
      end
  end.

(** [parseFloat(s)]. *)
Definition parseFloat (s : string) : number :=
  match scan_decimal (drop_while is_space (chars s)) with
  | Some (x, _) => x
  | None => NaN
  end.

(** [parseInt(s, 10)]. *)
Definition parseInt10 (s : string) : number :=
  let (neg, l) := scan_sign (drop_while is_space (chars s)) in
  let (ds, _) := span is_digit l in
  match ds with
  | [] => NaN
  | _ => of_sci neg (digits_val ds) 0
  end.

Definition hex_val (c : ascii) : option Z :=
  let n := code c in
  if is_digit c then Some (digit_val c)
  else if (97 <=? n)%nat && (n <=? 102)%nat then Some (Z.of_nat n - 87)
  else if (65 <=? n)%nat && (n <=? 70)%nat then Some (Z.of_nat n - 55)
  else None.

(** The value of a non-empty run of digits in the given radix. *)
Definition radix_val (radix : Z) (l : list ascii) : option Z :=
  match l with
  | [] => None
  | _ =>
      fold_left
        (fun acc c =>
           match acc, hex_val c with
           | Some a, Some d => if d <? radix then Some (radix * a + d) else None
           | _, _ => None
           end) l (Some 0)
  end.

(** [+s], that is [ToNumber] on a string: white space around a
    [StringNumericLiteral]; the empty string is [0]. *)
Definition ToNumber (s : string) : number :=
  let l := trim_chars (chars s) in
  match l with
  | [] => zero
  | z :: x :: ds =>
      let radix :=
        if is_char "0" z then
          if is_char "x" x || is_char "X" x then Some 16
          else if is_char "o" x || is_char "O" x then Some 8
          else if is_char "b" x || is_char "B" x then Some 2
          else None
        else None in
      match radix with
      | Some r =>
          match radix_val r ds with
          | Some v => of_Z v
          | None => NaN
          end
      | None =>
          match scan_decimal l with
          | Some (v, []) => v
          | _ => NaN
          end
      end
  | _ =>
      match scan_decimal l with
      | Some (v, []) => v
      | _ => NaN
      end
  end.

(** ** Dates

    Time values are integral numbers of milliseconds since the epoch, so the
    calendar arithmetic of [Date.UTC] and [getDate] is done in [Z]. *)

Definition msPerDay : Z := 86400000.
Definition msPerMinute : Z := 60000.

Definition DaysInYear (y : Z) : Z :=
  if negb (y mod 4 =? 0) then 365
  else if negb (y mod 100 =? 0) then 366
  else if negb (y mod 400 =? 0) then 365
  else 366.

Definition DayFromYear (y : Z) : Z :=
  365 * (y - 1970) + (y - 1969) / 4 - (y - 1901) / 100 + (y - 1601) / 400.

Definition InLeapYear (y : Z) : Z := if DaysInYear y =? 366 then 1 else 0.

(** Number of days of year [y] before month [m] (0 is January). *)
Definition DayBeforeMonth (y m : Z) : Z :=
  let leap := InLeapYear y in
  match m with
  | 0 => 0 | 1 => 31 | 2 => 59 + leap | 3 => 90 + leap | 4 => 120 + leap
  | 5 => 151 + leap | 6 => 181 + leap | 7 => 212 + leap | 8 => 243 + leap
  | 9 => 273 + leap | 10 => 304 + leap | _ => 334 + leap
  end.

Definition MakeDay (year month date : Z) : Z :=
  let ym := year + month / 12 in
  let mn := month mod 12 in
  DayFromYear ym + DayBeforeMonth ym mn + date - 1.

(** [TimeClip]: a time value beyond 8.64e15 ms is not a date. *)
Definition TimeClip (t : Z) : option Z :=
  if Z.abs t <=? 8640000000000000 then Some t else None.

(** [Date.UTC(year, month, date)] on integral arguments: years 0 to 99 stand
    for 1900 to 1999. *)
Definition Date_UTC (year month date : Z) : number :=
  let yr := if (0 <=? year) && (year <=? 99) then 1900 + year else year in
  match TimeClip (MakeDay yr month date * msPerDay) with
  | Some t => of_Z t
  | None => NaN
  end.

Definition YearFromDay (d : Z) : Z :=
  let y := 1970 + d * 400 / 146097 in
  if DayFromYear (y + 1) <=? d then y + 1
  else if d <? DayFromYear y then y - 1
  else y.

(** [DateFromTime(t)]: the day of the month, 1 to 31. *)
Definition DateFromTime (t : Z) : Z :=
  let day := t / msPerDay in
  let y := YearFromDay day in
  let leap := InLeapYear y in
  let d := day - DayFromYear y in
  if d <? 31 then d + 1
  else if d <? 59 + leap then d - 30
  else if d <? 90 + leap then d - 58 - leap
  else if d <? 120 + leap then d - 89 - leap
  else if d <? 151 + leap then d - 119 - leap
  else if d <? 181 + leap then d - 150 - leap
  else if d <? 212 + leap then d - 180 - leap
  else if d <? 243 + leap then d - 211 - leap
  else if d <? 273 + leap then d - 242 - leap
  else if d <? 304 + leap then d - 272 - leap
  else if d <? 334 + leap then d - 303 - leap
  else d - 333 - leap.

(** ** Regular expressions

    The patterns of the sources are transcribed into this syntax and run by a
    backtracking matcher that follows the order of ECMAScript: alternatives
    left to right, greedy repetition, and an iteration that matches nothing
    is not repeated.  A repetition is given as much fuel as it can use: every
    iteration either counts down its lower bound or consumes a character. *)

Inductive regex : Type :=
| Eps
| Class (p : ascii -> bool)
| Cat (a b : regex)
| Alt (a b : regex)
| Rep (lo : nat) (hi : option nat) (a : regex)
| Group (i : nat) (a : regex)
| Bol
| Eol.

Definition captures := list (nat * list ascii).

Fixpoint capture (i : nat) (cs : captures) : option (list ascii) :=
  match cs with
  | [] => None
  | (j, s) :: cs' => if (i =? j)%nat then Some s else capture i cs'
  end.

Section Matcher.

(** Length of the whole subject, to recognise its start. *)
Variable total : nat.

Definition cont := list ascii -> captures -> option (list ascii * captures).

Fixpoint run (r : regex) (rest : list ascii) (cs : captures) (k : cont)
  {struct r} : option (list ascii * captures) :=
  match r with
  | Eps => k rest cs
  | Class p =>
      match rest with
      | c :: rest' => if p c then k rest' cs else None
      | [] => None
      end
  | Cat a b => run a rest cs (fun rest' cs' => run b rest' cs' k)
  | Alt a b =>
      match run a rest cs k with
      | Some x => Some x
      | None => run b rest cs k
      end
  | Group i a =>
      run a rest cs
        (fun rest' cs' =>
           k rest' ((i, firstn (List.length rest - List.length rest') rest)
                      :: cs'))
  | Bol => if (List.length rest =? total)%nat then k rest cs else None
  | Eol => match rest with [] => k rest cs | _ :: _ => None end
  | Rep lo hi a =>
      (fix rep (fuel lo : nat) (hi : option nat) (rest : list ascii)
           (cs : captures) (k : cont) {struct fuel}
         : option (list ascii * captures) :=
         match fuel with
         | O => None
         | S fuel' =>
             let more :=
               match hi with
               | Some O => None
               | _ =>
                   run a rest cs
                     (fun rest' cs' =>
                        if (lo =? 0)%nat
                           && (List.length rest' =? List.length rest)%nat
                        then None
                        else rep fuel' (pred lo) (option_map pred hi)
                               rest' cs' k)
               end in
             match more with
             | Some x => Some x
             | None => if (lo =? 0)%nat then k rest cs else None
             end
         end) (S (lo + List.length rest)) lo hi rest cs k
  end.

Definition match_here (r : regex) (rest : list ascii)
  : option (list ascii * captures) :=
  run r rest [] (fun rest' cs => Some (rest', cs)).

End Matcher.

(** A successful match: the text before it, the matched text, the text
    after it and the groups. *)
Record match_result : Type := mkMatch {
  before : list ascii;
  matched : list ascii;
  after : list ascii;
  groups : captures
}.

(** Leftmost match at or after the current position; [pre] is the reversed
    text already passed. *)
Fixpoint search_from (total : nat) (r : regex) (pre : list ascii)
  (rest : list ascii) {struct rest} : option match_result :=
  match match_here total r rest with
  | Some (rest', cs) =>
      Some (mkMatch (rev pre)
              (firstn (List.length rest - List.length rest') rest) rest' cs)
  | None =>
      match rest with
      | [] => None
      | c :: rest' => search_from total r (c :: pre) rest'
      end
  end.

(** [s.match(r)] for a pattern without the global flag. *)
Definition String_match (r : regex) (s : string) : option match_result :=
  search_from (String.length s) r [] (chars s).

(** [r.test(s)]. *)
Definition RegExp_test (r : regex) (s : string) : bool :=
  match String_match r s with Some _ => true | None => false end.

(** [match[i]] as a string; a group that took no part reads as empty. *)
Definition group (m : match_result) (i : nat) : string :=
  match capture i (groups m) with
  | Some l => str l
  | None => ""
  end.

(** Replacement templates: literal text and [$n] references. *)
Inductive template_item : Type :=
| Lit (s : string)
| Ref (i : nat).

Definition expand (t : list template_item) (m : match_result) : list ascii :=
  flat_map (fun it => match it with
                      | Lit s => chars s
                      | Ref i => chars (group m i)
                      end) t.

(** [s.replace(r, t)] for a pattern without the global flag. *)
Definition String_replace (r : regex) (t : list template_item) (s : string)
  : string :=
  match String_match r s with
  | Some m => str (before m ++ expand t m ++ after m)%list
  | None => s
  end.

(** [s.replace(r, t)] for a pattern with the global flag: every match, left
    to right; after an empty match the scan moves one character on. *)
Fixpoint replace_all_from (fuel total : nat) (r : regex)
  (t : list template_item) (rest : list ascii) {struct fuel} : list ascii :=
  match fuel with
  | O => rest
  | S fuel' =>
      match search_from total r [] rest with
      | None => rest
      | Some m =>
          (before m ++ expand t m ++
             match matched m, after m with
             | [], [] => []
             | [], c :: rest' => c :: replace_all_from fuel' total r t rest'
             | _ :: _, rest' => replace_all_from fuel' total r t rest'
             end)%list
      end
  end.

Definition String_replace_all (r : regex) (t : list template_item)
  (s : string) : string :=
  str (replace_all_from (S (String.length s)) (String.length s) r t (chars s)).

(** Building blocks for transcribing patterns. *)
Definition chr (c : ascii) : regex := Class (is_char c).
Definition digit : regex := Class is_digit.
Definition space : regex := Class is_space.
Definition any : regex := Class (fun c => negb (is_line_terminator c)).
Definition plus (a : regex) : regex := Rep 1 None a.
Definition star (a : regex) : regex := Rep 0 None a.
Definition opt (a : regex) : regex := Rep 0 (Some 1%nat) a.
Definition times (lo hi : nat) (a : regex) : regex := Rep lo (Some hi) a.

Fixpoint cats (l : list regex) : regex :=
  match l with
  | [] => Eps
  | [a] => a
  | a :: l' => Cat a (cats l')
  end.

Definition lit (s : string) : regex := cats (map chr (chars s)).

(** ** Objects

    An object used as a record is the list of its own properties in the
    order of [Object.keys]: array indices first, ascending, then the other
    names in the order of their creation.  [get], [has] and [keys] see the
    own properties only; what a read [o[k]] finds beyond them, in
    [Object.prototype], is told by [lookup].  [set] is the assignment
    [o[k] = v] for every name but [__proto__], under which an assignment
    sets the prototype of a plain object and creates no property. *)

Definition object (V : Type) : Type := list (string * V).

(** The array index a property name denotes, if any: the name is the
    decimal rendering of its own value, and the value is below [2^32 - 1]. *)
Definition array_index (k : string) : option N :=
  match DecimalString.NilEmpty.uint_of_string k with
  | Some d =>
      let n := N.of_uint d in
      if String.eqb (DecimalString.NilEmpty.string_of_uint (N.to_uint n)) k
         && (n <? 4294967295)%N
      then Some n
      else None
  | None => None
  end.

Section Objects.

Context {V : Type}.

Fixpoint get (k : string) (o : object V) : option V :=
  match o with
  | [] => None
  | (k', v) :: o' => if String.eqb k k' then Some v else get k o'
  end.

Definition has (k : string) (o : object V) : bool :=
  match get k o with Some _ => true | None => false end.

Definition keys (o : object V) : list string := map fst o.

Definition values (o : object V) : list V := map snd o.

Fixpoint update (k : string) (v : V) (o : object V) : object V :=
  match o with
  | [] => []
  | (k', v') :: o' =>
      if String.eqb k k' then (k', v) :: o' else (k', v') :: update k v o'
  end.

Fixpoint insert_index (n : N) (k : string) (v : V) (o : object V)
  : object V :=
  match o with
  | [] => [(k, v)]
  | (k', v') :: o' =>
      match array_index k' with
      | Some n' =>
          if (n' <? n)%N then (k', v') :: insert_index n k v o'
          else (k, v) :: o
      | None => (k, v) :: o
      end
  end.

(** [o[k] = v]. *)
Definition set (k : string) (v : V) (o : object V) : object V :=
  if has k o then update k v o
  else match array_index k with
       | Some n => insert_index n k v o
       | None => (o ++ [(k, v)])%list
       end.

(** [delete o[k]]. *)
Fixpoint remove (k : string) (o : object V) : object V :=
  match o with
  | [] => []
  | (k', v) :: o' =>
      if String.eqb k k' then o' else (k', v) :: remove k o'
  end.

(** An object literal or a copy: the properties are created in turn. *)
Definition of_entries (l : list (string * V)) : object V :=
  fold_left (fun o kv => set (fst kv) (snd kv) o) l [].

End Objects.

(** The names of the members of [Object.prototype], which every plain
    object inherits; the prototype itself is taken to be as the platform
    makes it. *)
Definition prototype_names : list string :=
  [ "constructor"; "__defineGetter__"; "__defineSetter__"; "hasOwnProperty";
    "__lookupGetter__"; "__lookupSetter__"; "isPrototypeOf";
    "propertyIsEnumerable"; "toString"; "valueOf"; "__proto__";
    "toLocaleString" ].

Definition inherited (k : string) : bool :=
  existsb (String.eqb k) prototype_names.

(** What a read [o[k]] of a plain object finds: an own property, a member of
    [Object.prototype] (a function, or the prototype itself under
    [__proto__]: truthy in every case), or [undefined]. *)
Inductive member (V : Type) : Type :=
| Own (v : V)
| Inherited
| Missing.

Arguments Own {V} v.
Arguments Inherited {V}.
Arguments Missing {V}.

(** [o[k]] on a plain object. *)
Definition lookup {V : Type} (k : string) (o : object V) : member V :=
  match get k o with
  | Some v => Own v
  | None => if inherited k then Inherited else Missing
  end.

(** ** Arrays *)

Section Arrays.

Context {A : Type}.

(** [a[i] = v] on an array whose holes read as [hole]: past the end the
    array grows. *)
Fixpoint assign (hole : A) (i : nat) (v : A) (a : list A) : list A :=
  match i, a with
  | O, [] => [v]
  | O, _ :: a' => v :: a'
  | S i', [] => hole :: assign hole i' v []
  | S i', x :: a' => x :: assign hole i' v a'
  end.

(** [a.sort(cmp)]: stable; [x] moves behind [y] when [cmp x y > 0]. *)
Fixpoint sort_insert (cmp : A -> A -> Z) (x : A) (l : list A) : list A :=
  match l with
  | [] => [x]
  | y :: l' => if 0 <? cmp x y then y :: sort_insert cmp x l' else x :: l
  end.

Definition Array_sort (cmp : A -> A -> Z) (l : list A) : list A :=
  fold_right (sort_insert cmp) [] l.

End Arrays.

(** [a.indexOf(x)] on an array of names with holes. *)
Fixpoint indexOf_from (i : Z) (x : string) (a : list (option string)) : Z :=
  match a with
  | [] => -1
  | Some y :: a' => if String.eqb x y then i else indexOf_from (i + 1) x a'
  | None :: a' => indexOf_from (i + 1) x a'
  end.

Definition Array_indexOf (x : string) (a : list (option string)) : Z :=
  indexOf_from 0 x a.

End JS.

Import JS.

(* ===================================================================== *)
(** * Core/Utilities                                                      *)
(* ===================================================================== *)

Module U.

(** Modelled from the spec: [Utilities.isNumber] is not among the sources;
    parseDate "returns a numeric timestamp" and a "not-a-number sentinel"
    otherwise, so a number counts when it is neither NaN nor infinite. *)
Definition isNumber (n : number) : bool :=
  negb (isNaN n) && lt n infinity && gt n neg_infinity.

(** Modelled from the spec: [Utilities.pick] is not among the sources; the
    store defaults "unindexed columns to their discovery position", the first
    argument that is defined. *)
Definition pick {A : Type} (a : option A) (b : A) : A :=
  match a with Some x => x | None => b end.

(** Modelled from the spec: [Utilities.uniqueKey] is not among the sources;
    identifiers are "generated if not supplied" and header names are
    auto-generated "unique": a fixed prefix followed by a counter that is
    stepped at every call. *)
Record KeyState : Type := mkKeys { hash : string; counter : nat }.

(** Computations that draw unique keys. *)
Definition M (A : Type) : Type := KeyState -> A * KeyState.

Definition ret {A : Type} (a : A) : M A := fun st => (a, st).

Definition bind {A B : Type} (m : M A) (f : A -> M B) : M B :=
  fun st => let (a, st') := m st in f a st'.

Definition key_of (h : string) (n : nat) : string :=
  "highcharts-" ++ h ++ nat_to_string n.

Definition uniqueKey : M string :=
  fun st => (key_of (hash st) (counter st), mkKeys (hash st) (S (counter st))).

End U.

Notation "x <- m ;; f" := (U.bind m (fun x => f))
  (at level 61, m at next level, right associativity).

(* ===================================================================== *)
(** * Data/DataTableRow and Data/DataTable                                *)
(* ===================================================================== *)

(** Modelled from the spec: [DataTableRow] and [DataTable] are not among the
    sources.  A cell value is "one of string, number, boolean, Date, nested
    Table, absent/undefined" (a date is kept as its time value, if valid);
    a row is "an identifier (string, unique within a table, generated if not
    supplied) plus a mapping from column name to cell value"; a table is "an
    ordered sequence of rows plus a presentation state", a mapping from
    column name to its display index. *)
Inductive CellType : Type :=
| CUndefined
| CNull
| CBoolean (b : bool)
| CNumber (n : number)
| CString (s : string)
| CDate (t : option Z)
| CTable (t : DataTable)
with DataTableRow : Type :=
| mkRow (id : string) (cells : object CellType)
with DataTable : Type :=
| mkTable (rows : list DataTableRow) (columnOrder : object nat).

Arguments CNumber n%_float.

Module Row.

Definition id (r : DataTableRow) : string :=
  match r with mkRow i _ => i end.

Definition cells (r : DataTableRow) : object CellType :=
  match r with mkRow _ c => c end.

(** Modelled from the spec: [new DataTableRow(cells)]; the identifier is the
    [id] entry of the given cells when it is a string, and is generated
    otherwise; the [id] entry is not kept as a cell. *)
Definition create (c : object CellType) : U.M DataTableRow :=
  match get "id" c with
  | Some (CString i) => U.ret (mkRow i (remove "id" c))
  | _ => i <- U.uniqueKey ;; U.ret (mkRow i (remove "id" c))
  end.

(** Modelled from the spec: [getCellNames], the names of the row's "mapping
    from column name to cell value". *)
Definition getCellNames (r : DataTableRow) : list string := keys (cells r).

(** Modelled from the spec: [getCell], the cell value under a name, absent
    when the row has none. *)
Definition getCell (r : DataTableRow) (name : string) : CellType :=
  match get name (cells r) with
  | Some v => v
  | None => CUndefined
  end.

(** Modelled from the spec: [insertCell]; "cells may be inserted, updated, or
    removed after creation".  Inserting leaves a cell that is already there
    as it is.  The spec does not say what becomes of a cell named [id]; here
    it is a cell like any other. *)
Definition insertCell (name : string) (v : CellType) (r : DataTableRow)
  : DataTableRow :=
  if has name (cells r) then r else mkRow (id r) (set name v (cells r)).

End Row.

Module Table.

Definition rows (t : DataTable) : list DataTableRow :=
  match t with mkTable r _ => r end.

Definition columnOrder (t : DataTable) : object nat :=
  match t with mkTable _ o => o end.

(** Modelled from the spec: [new DataTable()], a table without rows. *)
Definition empty : DataTable := mkTable [] [].

(** Modelled from the spec: [getAllRows], the "ordered sequence of rows". *)
Definition getAllRows (t : DataTable) : list DataTableRow := rows t.

(** Modelled from the spec: [getRowCount], the "row count query". *)
Definition getRowCount (t : DataTable) : nat := List.length (rows t).

(** Modelled from the spec: [insertRow]; "row identifiers must be unique":
    a row whose identifier is already in the table is rejected. *)
Definition insertRow (r : DataTableRow) (t : DataTable) : DataTable :=
  if existsb (fun r' => String.eqb (Row.id r') (Row.id r)) (rows t) then t
  else mkTable (rows t ++ [r]) (columnOrder t).

(** Modelled from the spec: the presentation state's [setColumnOrder]
    "assigns sequential indices" to the given names. *)
Definition setColumnOrder (names : list string) (t : DataTable) : DataTable :=
  mkTable (rows t)
    (fold_left (fun o ni => set (snd ni) (fst ni) o)
       (combine (seq 0 (List.length names)) names) (columnOrder t)).

(** Modelled from the spec: the presentation state's [getColumnSorter];
    "columns without an assigned index sort after columns with one", the
    others by their index. *)
Definition getColumnSorter (t : DataTable) (a b : string) : Z :=
  match get a (columnOrder t), get b (columnOrder t) with
  | Some i, Some j => Z.of_nat i - Z.of_nat j
  | None, Some _ => 1
  | Some _, None => -1
  | None, None => 0
  end.

End Table.

(** Positional, structured and primitive points of a series. *)
Inductive Point : Type :=
| PArray (values : list CellType)
| PObject (options : object CellType)
| PPrimitive (value : CellType).

Record SeriesOptions : Type := mkSeries {
  series_type : option string;
  series_data : option (list Point)
}.

(* ===================================================================== *)
(** * Data/Parsers/DataParser                                             *)
(* ===================================================================== *)

Module DataParser.

Definition ColumnCollection : Type := object (list CellType).

(** [columnsObject[cellName] = []] followed by the loop that sets the rows
    before [rowIndex] to [undefined]. *)
Definition new_column (rowIndex : nat) : list CellType :=
  fold_left (fun col rowNumber => assign CUndefined rowNumber CUndefined col)
    (seq 0 rowIndex) [].

(** The body of the loop over the cell names of a row.  The test
    [!columnsObject[cellName]] is taken on the columns the record has of its
    own; under the name of a member of [Object.prototype] the code finds
    the inherited member instead and makes no column. *)
Definition add_cell (rowIndex : nat) (row : DataTableRow)
  (columnsObject : ColumnCollection) (cellName : string) : ColumnCollection :=
  let cell := Row.getCell row cellName in
  let columnsObject :=
    if negb (has cellName columnsObject)
    then set cellName (new_column rowIndex) columnsObject
    else columnsObject in
  match get cellName columnsObject with
  | Some col => set cellName (assign CUndefined rowIndex cell col) columnsObject
  | None => columnsObject
  end.

(** [while (column.length - 1 < rowIndex) column.push(void 0)]. *)
Definition pad_column (rowIndex : nat) (col : list CellType) : list CellType :=
  (col ++ repeat CUndefined (S rowIndex - List.length col))%list.

(** The body of the loop over the rows. *)
Definition add_row (columnsObject : ColumnCollection)
  (ir : nat * DataTableRow) : ColumnCollection :=
  let (rowIndex, row) := ir in
  let columnsObject :=
    match get "id" columnsObject with
    | Some idc => set "id" (idc ++ [CString (Row.id row)])%list columnsObject
    | None => columnsObject
    end in
  let columnsObject :=
    fold_left (add_cell rowIndex row) (Row.getCellNames row) columnsObject in
  map (fun kc => (fst kc, pad_column rowIndex (snd kc))) columnsObject.

(** The record of columns after the scan of the rows. *)
Definition columnsObject (table : DataTable) : ColumnCollection :=
  let rows := Table.getAllRows table in
  fold_left add_row (combine (seq 0 (List.length rows)) rows) [("id", [])].

Definition column (co : ColumnCollection) (name : string) : list CellType :=
  match get name co with
  | Some col => col
  | None => []
  end.

Definition getColumnsFromTable (table : DataTable)
  (usePresentationOrder : bool) : list (list CellType) :=
  let co := columnsObject table in
  let columnNames := keys co in
  let columnNames :=
    if usePresentationOrder
    then Array_sort (Table.getColumnSorter table) columnNames
    else columnNames in
  map (column co) columnNames.

Definition getSeriesOptionsFromTable (table : DataTable) : SeriesOptions :=
  let rows := Table.getAllRows table in
  let data :=
    map (fun row =>
           PObject
             (fold_left
                (fun pointOptions cellName =>
                   set cellName (Row.getCell row cellName) pointOptions)
                (Row.getCellNames row)
                (of_entries [("id", CString (Row.id row))])))
      rows in
  mkSeries None (Some data).

(** [while (headers.length < columnsLength) headers.push(uniqueKey())]. *)
Fixpoint fill_headers (missing : nat) (headers : list string)
  : U.M (list string) :=
  match missing with
  | O => U.ret headers
  | S missing' =>
      k <- U.uniqueKey ;; fill_headers missing' (headers ++ [k])%list
  end.

(** The rows built from the columns, one per index of the first column. *)
Fixpoint build_rows (columns : list (list CellType)) (headers : list string)
  (indices : list nat) (table : DataTable) : U.M DataTable :=
  match indices with
  | [] => U.ret table
  | i :: indices' =>
      row <- Row.create [] ;;
      let row :=
        fold_left
          (fun row j =>
             Row.insertCell (nth j headers "")
               (nth i (nth j columns []) CUndefined) row)
          (seq 0 (List.length columns)) row in
      build_rows columns headers indices' (Table.insertRow row table)
  end.

Definition getTableFromColumns (columns : list (list CellType))
  (headers : list string) : U.M DataTable :=
  let columnsLength := List.length columns in
  let table := Table.empty in
  headers <- fill_headers (columnsLength - List.length headers) headers ;;
  let table := Table.setColumnOrder headers table in
  match columns with
  | [] => U.ret table
  | first :: _ =>
      build_rows columns headers (seq 0 (List.length first)) table
  end.

(** [pointArrayMap[j] || fallback]. *)
Definition map_name (pointArrayMap : list string) (j : nat)
  (fallback : string) : string :=
  match nth_error pointArrayMap j with
  | Some "" => fallback
  | Some name => name
  | None => fallback
  end.

Section SeriesTypes.

(** [SeriesRegistry.seriesTypes]: for the name of a registered series
    class, the [pointArrayMap] of its prototype, if it has one. *)
Variable seriesTypes : string -> option (option (list string)).

Definition resolve_map (seriesOptions : SeriesOptions)
  (pointArrayMap : list string) : list string :=
  match pointArrayMap with
  | _ :: _ => pointArrayMap
  | [] =>
      let pointArrayMap :=
        match series_type seriesOptions with
        | Some "" | None => pointArrayMap
        | Some type =>
            match seriesTypes type with
            | Some (Some m) => m
            | _ => []
            end
        end in
      match pointArrayMap with
      | [] => ["x"; "y"]
      | _ :: _ => pointArrayMap
      end
  end.

(** The body of the loop over the points. *)
Definition add_point (pointArrayMap : list string) (table : DataTable)
  (ip : nat * Point) : U.M DataTable :=
  let (i, point) := ip in
  match point with
  | PArray values =>
      let pointOptions :=
        fold_left
          (fun po jv =>
             set (map_name pointArrayMap (fst jv) (nat_to_string (fst jv)))
               (snd jv) po)
          (combine (seq 0 (List.length values)) values) [] in
      row <- Row.create pointOptions ;;
      U.ret (Table.insertRow row table)
  | PObject options =>
      row <- Row.create options ;;
      U.ret (Table.insertRow row table)
  | PPrimitive value =>
      row <- Row.create
               (of_entries
                  [(map_name pointArrayMap 0 "x",
                     CNumber (of_Z (Z.of_nat i)));
                   (map_name pointArrayMap 1 "y", value)]) ;;
      U.ret (Table.insertRow row table)
  end.

Fixpoint add_points (pointArrayMap : list string)
  (points : list (nat * Point)) (table : DataTable) : U.M DataTable :=
  match points with
  | [] => U.ret table
  | ip :: points' =>
      table <- add_point pointArrayMap table ip ;;
      add_points pointArrayMap points' table
  end.

Definition getTableFromSeriesOptions (seriesOptions : SeriesOptions)
  (pointArrayMap : list string) : U.M DataTable :=
  let table := Table.empty in
  let data :=
    match series_data seriesOptions with
    | Some d => d
    | None => []
    end in
  let pointArrayMap := resolve_map seriesOptions pointArrayMap in
  add_points pointArrayMap (combine (seq 0 (List.length data)) data) table.

End SeriesTypes.

End DataParser.

(* ===================================================================== *)
(** * Data/Stores/DataStore                                               *)
(* ===================================================================== *)

Module DataStore.

(** Metadata of a column: its index and other descriptive fields. *)
Record MetaColumn : Type := mkMeta {
  index : option nat;
  info : object string
}.

Record Store : Type := mkStore {
  table : DataTable;
  columns : object MetaColumn
}.

(** The constructor, with its defaults for a missing table or metadata. *)
Definition create (table : option DataTable)
  (metadata : option (object MetaColumn)) : Store :=
  mkStore (U.pick table Table.empty) (U.pick metadata []).

(** Modelled from the spec: [Utilities.merge] is not among the sources; the
    store merges "(not replace) metadata fields for a column": the fields of
    the second record are added to the first or override them. *)
Definition merge (a b : MetaColumn) : MetaColumn :=
  mkMeta (match index b with Some i => Some i | None => index a end)
    (fold_left (fun o kv => set (fst kv) (snd kv) o) (info b) (info a)).

Definition describeColumn (name : string) (columnMeta : MetaColumn)
  (store : Store) : Store :=
  mkStore (table store)
    (set name (merge (U.pick (get name (columns store)) (mkMeta None []))
                 columnMeta)
       (columns store)).

Definition describeColumns (cols : object MetaColumn) (store : Store)
  : Store :=
  fold_left (fun store kc => describeColumn (fst kc) (snd kc) store)
    (rev cols) store.

(** The array of names, with holes where no column has the index. *)
Definition getColumnOrder (store : Store) : list (option string) :=
  let columnNames := keys (columns store) in
  fold_left
    (fun columnOrder ic =>
       let (i, columnName) := ic : nat * string in
       let meta := U.pick (get columnName (columns store)) (mkMeta None []) in
       assign None (U.pick (index meta) i) (Some columnName) columnOrder)
    (combine (seq 0 (List.length columnNames)) columnNames) [].

(** Modelled from the spec: [DataTable.toColumns] is not among the sources;
    "Table -> columns always produces an id column first, then one column per
    distinct cell key observed across all rows, discovered in row-scan
    order", padded with absent cells: the record of columns that the scan of
    [DataParser.getColumnsFromTable] builds.  Being a record, it lists
    array-index names before [id], and a cell named [id] stands in the id
    column in place of the identifier, as in that scan. *)
Definition toColumns (t : DataTable) : DataParser.ColumnCollection :=
  DataParser.columnsObject t.

(** The comparison function given to [columnNames.sort]. *)
Definition export_sorter (columnOrder : list (option string)) (a b : string)
  : Z :=
  if Array_indexOf a columnOrder <? Array_indexOf b columnOrder then 1
  else if Array_indexOf b columnOrder <? Array_indexOf a columnOrder then -1
  else 0.

Definition getColumnsForExport (includeIdColumn : bool) (store : Store)
  : list string * list (list CellType) :=
  let columnsRecord := toColumns (table store) in
  let columnNames :=
    if includeIdColumn then keys columnsRecord
    else tl (keys columnsRecord) in
  let columnOrder := rev (getColumnOrder store) in
  let columnNames :=
    match columnOrder with
    | [] => columnNames
    | _ :: _ => Array_sort (export_sorter columnOrder) columnNames
    end in
  (columnNames, map (DataParser.column columnsRecord) columnNames).

Definition setColumnOrder (columnNames : list string) (store : Store)
  : Store :=
  fold_left
    (fun store ic => describeColumn (snd ic) (mkMeta (Some (fst ic)) []) store)
    (combine (seq 0 (List.length columnNames)) columnNames) store.

Definition whatIs (name : string) (store : Store) : option MetaColumn :=
  get name (columns store).

End DataStore.

(* ===================================================================== *)
(** * Data/DataConverter                                                  *)
(* ===================================================================== *)

Module DataConverter.

(** What [Date.parse] gives back: a time value or NaN, or, where a library
    extends [Date], a date object or null. *)
Inductive DateParseResult : Type :=
| DPNumber (t : option Z)
| DPObject (t : option Z)
| DPNull.

(** The platform as the converter sees it during one call. *)
Record Env : Type := mkEnv {
  Date_parse : string -> DateParseResult;
  (** [getTimezoneOffset()] of the date with the given time value, in
      minutes. *)
  timezoneOffset : Z -> Z;
  (** [new Date().getFullYear()]. *)
  currentYear : Z
}.

Record DateFormat : Type := mkFormat {
  regex : JS.regex;
  parser : Env -> match_result -> number;
  alternative : option string
}.

Definition separator : JS.regex := Class (one_of "-/.").

(** The numeric value of a group of digits. *)
Definition num (m : match_result) (i : nat) : Z :=
  digits_val (chars (group m i)).

Definition regex_YYYY_mm_dd : JS.regex :=
  cats [Bol; Group 1 (times 4 4 digit); separator;
        Group 2 (times 1 2 digit); separator;
        Group 3 (times 1 2 digit); Eol].

Definition regex_dd_mm_YYYY : JS.regex :=
  cats [Bol; Group 1 (times 1 2 digit); separator;
        Group 2 (times 1 2 digit); separator;
        Group 3 (times 4 4 digit); Eol].

Definition regex_dd_mm_YY : JS.regex :=
  cats [Bol; Group 1 (times 1 2 digit); separator;
        Group 2 (times 1 2 digit); separator;
        Group 3 (times 2 2 digit); Eol].

(** [this.dateFormats], in the order of its keys. *)
Definition dateFormats : object DateFormat :=
  [ ("YYYY/mm/dd",
      mkFormat regex_YYYY_mm_dd
        (fun _ m => Date_UTC (num m 1) (num m 2 - 1) (num m 3))
        None);
    ("dd/mm/YYYY",
      mkFormat regex_dd_mm_YYYY
        (fun _ m => Date_UTC (num m 3) (num m 2 - 1) (num m 1))
        (Some "mm/dd/YYYY"));
    ("mm/dd/YYYY",
      mkFormat regex_dd_mm_YYYY
        (fun _ m => Date_UTC (num m 3) (num m 1 - 1) (num m 2))
        None);
    ("dd/mm/YY",
      mkFormat regex_dd_mm_YY
        (fun env m =>
           let year := num m 3 in
           let year :=
             if currentYear env - 2000 <? year then year + 1900
             else year + 2000 in
           Date_UTC year (num m 2 - 1) (num m 1))
        (Some "mm/dd/YY"));
    ("mm/dd/YY",
      mkFormat regex_dd_mm_YY
        (fun _ m => Date_UTC (num m 3 + 2000) (num m 1 - 1) (num m 2))
        None) ].

(** The options given to the constructor; every field is optional. *)
Record UserOptions : Type := mkUserOptions {
  user_dateFormat : option string;
  user_alternativeFormat : option string;
  user_decimalPoint : option string
}.

Record Options : Type := mkOptions {
  dateFormat : string;
  alternativeFormat : string;
  decimalPoint : option string
}.

Definition defaultOptions : Options := mkOptions "" "" None.

Record Converter : Type := mkConverter {
  options : Options;
  parseDateFn : option (string -> number);
  decimalRegex : option JS.regex
}.

(** [new RegExp('^(-?[0-9]+)' + decimalPoint + '([0-9]+)$')]: a comma stands
    for itself, a dot for any character. *)
Definition decimal_regex (decimalPoint : string) : option JS.regex :=
  let point :=
    if String.eqb decimalPoint "." then Some any
    else if String.eqb decimalPoint "," then Some (chr ",")
    else None in
  match point with
  | Some p =>
      Some (cats [Bol; Group 1 (Cat (opt (chr "-")) (plus digit)); p;
                  Group 2 (plus digit); Eol])
  | None => None
  end.

(** The constructor. *)
Definition create (opts : UserOptions) (parseDate : option (string -> number))
  : Converter :=
  let options :=
    mkOptions (U.pick (user_dateFormat opts) (dateFormat defaultOptions))
      (U.pick (user_alternativeFormat opts)
         (alternativeFormat defaultOptions))
      (user_decimalPoint opts) in
  mkConverter options parseDate
    (match decimalPoint options with
     | Some dp => decimal_regex dp
     | None => None
     end).

Definition getDateFormat (converter : Converter) : string :=
  dateFormat (options converter).

(** [/^\s+|\s+$/g] *)
Definition regex_outer_space : JS.regex :=
  Alt (Cat Bol (plus space)) (Cat (plus space) Eol).

(** [/^[0-9\s]+$/] *)
Definition regex_digits_and_space : JS.regex :=
  cats [Bol; plus (Class (fun c => is_digit c || is_space c)); Eol].

Definition trim (converter : Converter) (s : string) (inside : bool)
  : string :=
  let s := String_replace_all regex_outer_space [] s in
  let s :=
    if inside && RegExp_test regex_digits_and_space s
    then String_replace_all space [] s
    else s in
  match decimalRegex converter with
  | Some r => String_replace r [Ref 1; Lit "."; Ref 2] s
  | None => s
  end.

(** [date.getDate()], the day of the month in local time. *)
Definition getDate (env : Env) (t : option Z) : number :=
  match t with
  | Some t => of_Z (DateFromTime (t - timezoneOffset env t * msPerMinute))
  | None => NaN
  end.

Definition asNumber (env : Env) (converter : Converter) (value : CellType)
  : number :=
  match value with
  | CNumber n => n
  | CBoolean b => if b then one else zero
  | CString s =>
      let trimVal := trim converter s false in
      let cast := parseFloat trimVal in
      if negb (isNaN cast) then cast else zero
  | CTable t => of_Z (Z.of_nat (Table.getRowCount t))
  | CDate t => getDate env t
  | _ => zero
  end.

Definition asBoolean (env : Env) (converter : Converter) (value : CellType)
  : bool :=
  match value with
  | CBoolean b => b
  | CString s =>
      negb (String.eqb s "") && negb (String.eqb s "0")
      && negb (String.eqb s "false")
  | _ => negb (strict_eq (asNumber env converter value) zero)
  end.

(** [/:.+(GMT|UTC|[Z+-])/] *)
Definition regex_zone : JS.regex :=
  cats [chr ":"; plus any;
        Group 1 (Alt (lit "GMT") (Alt (lit "UTC") (Class (one_of "Z+-"))))].

Definition GMT_or_UTC : JS.regex := Alt (lit "GMT") (lit "UTC").

(** [/\s*(?:GMT|UTC)?([+-])(\d\d)(\d\d)$/] *)
Definition regex_offset : JS.regex :=
  cats [star space; opt GMT_or_UTC; Group 1 (Class (one_of "+-"));
        Group 2 (Cat digit digit); Group 3 (Cat digit digit); Eol].

(** [/(?:\s+|GMT|UTC)([+-])/] *)
Definition regex_sign : JS.regex :=
  Cat (Alt (plus space) GMT_or_UTC) (Group 1 (Class (one_of "+-"))).

(** [/(\d)\s*(?:GMT|UTC|Z)$/] *)
Definition regex_utc : JS.regex :=
  cats [Group 1 digit; star space; Alt (lit "GMT") (Alt (lit "UTC") (chr "Z"));
        Eol].

(** The fall back to [Date.parse], taken when no format matched. *)
Definition parse_fallback (env : Env) (value : string) : number :=
  let value :=
    if RegExp_test regex_zone value then
      String_replace regex_utc [Ref 1; Lit "+00:00"]
        (String_replace regex_sign [Ref 1]
           (String_replace regex_offset [Ref 1; Ref 2; Lit ":"; Ref 3] value))
    else value in
  match Date_parse env value with
  | DPObject (Some t) => of_Z (t - timezoneOffset env t * msPerMinute)
  | DPObject None => NaN
  | DPNumber (Some t) =>
      match TimeClip t with
      | Some _ => of_Z (t - timezoneOffset env t * msPerMinute)
      | None => NaN
      end
  | DPNumber None => NaN
  | DPNull => NaN
  end.

(** The loop over [converter.dateFormats] that looks for a pattern the value
    matches: the name found, if any, and the parsed result. *)
Fixpoint detect (env : Env) (value : string) (formats : object DateFormat)
  : option (string * number) :=
  match formats with
  | [] => None
  | (key, format) :: formats' =>
      match String_match (regex format) value with
      | Some m => Some (key, parser format env m)
      | None => detect env value formats'
      end
  end.

(** [parseDate(value, dateFormatProp)]: the result and the converter after
    the call.  The format is looked up among the names the registry has of
    its own; under the name of a member of [Object.prototype] the code
    takes the inherited member for the format and fails. *)
Definition parseDate (env : Env) (converter : Converter) (value : string)
  (dateFormatProp : option string) : number * Converter :=
  let dateFormat :=
    match dateFormatProp with
    | Some "" | None => dateFormat (options converter)
    | Some f => f
    end in
  match parseDateFn converter with
  | Some fn => (fn value, converter)
  | None =>
      if String.eqb dateFormat "" then
        match detect env value dateFormats with
        | Some (key, result) => (result, converter)
        | None => (parse_fallback env value, converter)
        end
      else
        let format :=
          match get dateFormat dateFormats with
          | Some format => Some format
          | None => get "YYYY/mm/dd" dateFormats
          end in
        match format with
        | Some format =>
            match String_match (regex format) value with
            | Some m => (parser format env m, converter)
            | None => (parse_fallback env value, converter)
            end
        | None => (parse_fallback env value, converter)
        end
  end.

(** The types [guessType] tells apart. *)
Inductive GuessedType : Type := TString | TDate | TNumber.

Definition year_of_milliseconds : number :=
  (365 * 24 * 3600 * 1000)%float.

Definition guessType (env : Env) (converter : Converter) (value : string)
  : GuessedType * Converter :=
  let trimVal := trim converter value false in
  let trimInsideVal := trim converter value true in
  let floatVal := parseFloat trimInsideVal in
  if strict_eq (ToNumber trimInsideVal) floatVal then
    if gt floatVal year_of_milliseconds then (TDate, converter)
    else (TNumber, converter)
  else
    if negb (String.eqb trimVal "") then
      let (dateVal, converter) := parseDate env converter value None in
      if truthy dateVal && U.isNumber dateVal then (TDate, converter)
      else (TString, converter)
    else (TString, converter).

(** *** deduceDateFormat *)

(** An entry of [stable]: the value seen so far, or [false]. *)
Inductive StableValue : Type :=
| Stable (elem : number)
| Unstable.

Record Deduction : Type := mkDeduction {
  stable : list (option StableValue);
  max : list (option number);
  guessedFormat : list string;
  madeDeduction : bool
}.

Definition at_index {A : Type} (a : list (option A)) (j : nat) : option A :=
  match nth_error a j with
  | Some (Some x) => Some x
  | _ => None
  end.

(** The body of the loop over the components of a sample. *)
Definition deduce_component (d : Deduction) (jt : nat * string) : Deduction :=
  let (j, thing_j) := jt in
  if (j <? List.length (guessedFormat d))%nat then
    let elem := parseInt10 thing_j in
    if truthy elem then
      let max_j :=
        match at_index (max d) j with
        | Some m => if lt m elem then elem else m
        | None => elem
        end in
      let max' := assign None j (Some max_j) (max d) in
      let stable' :=
        match at_index (stable d) j with
        | Some (Stable s) =>
            if negb (strict_eq s elem)
            then assign None j (Some Unstable) (stable d)
            else stable d
        | Some Unstable => assign None j (Some Unstable) (stable d)
        | None => assign None j (Some (Stable elem)) (stable d)
        end in
      if gt elem 31%float then
        if lt elem 100%float
        then mkDeduction stable' max' (assign "" j "YY" (guessedFormat d))
               (madeDeduction d)
        else mkDeduction stable' max' (assign "" j "YYYY" (guessedFormat d))
               (madeDeduction d)
      else if gt elem 12%float && le elem 31%float then
        mkDeduction stable' max' (assign "" j "dd" (guessedFormat d)) true
      else if String.eqb (nth j (guessedFormat d) "") "" then
        mkDeduction stable' max' (assign "" j "mm" (guessedFormat d))
          (madeDeduction d)
      else mkDeduction stable' max' (guessedFormat d) (madeDeduction d)
    else d
  else d.

(** [/\//g], [/\-/g], [/\./g] *)
Definition split_sample (s : string) : list string :=
  String_split " "
    (String_replace_all (chr ".") [Lit " "]
       (String_replace_all (chr "-") [Lit " "]
          (String_replace_all (chr "/") [Lit " "] (String_trim s)))).

(** The body of the loop over the samples. *)
Definition deduce_sample (d : Deduction) (sample : option string)
  : Deduction :=
  match sample with
  | Some "" | None => d
  | Some s =>
      let thing := split_sample s in
      fold_left deduce_component
        (combine (seq 0 (List.length thing)) thing)
        (mkDeduction (stable d) (max d) [""; ""; ""] (madeDeduction d))
  end.

(** The body of the loop that repairs the guesses. *)
Definition repair (stable : list (option StableValue))
  (max : list (option number)) (guessedFormat : list string) (j : nat)
  : list string :=
  let max_above_12 :=
    match at_index max j with
    | Some m => gt m 12%float
    | None => false
    end in
  let guess := nth j guessedFormat "" in
  match at_index stable j with
  | Some Unstable =>
      if max_above_12 && String.eqb guess "mm"
      then assign "" j "dd" guessedFormat
      else guessedFormat
  | _ =>
      if max_above_12 && negb (String.eqb guess "YY")
         && negb (String.eqb guess "YYYY")
      then assign "" j "YY" guessedFormat
      else guessedFormat
  end.

(** [deduceDateFormat(data, limit, save)]: the format and the converter
    after the call. *)
Definition deduceDateFormat (converter : Converter)
  (data : list (option string)) (limit : option nat) (save : bool)
  : string * Converter :=
  let limit :=
    match limit with
    | Some (S _ as l) => if (List.length data <? l)%nat
                         then List.length data else l
    | _ => List.length data
    end in
  let d :=
    fold_left deduce_sample (firstn limit data)
      (mkDeduction [] [] [] false) in
  let format :=
    if madeDeduction d then
      let guessedFormat :=
        fold_left (repair (stable d) (max d))
          (seq 0 (List.length (stable d))) (guessedFormat d) in
      let guessedFormat :=
        if (List.length guessedFormat =? 3)%nat
           && String.eqb (nth 1 guessedFormat "") "dd"
           && String.eqb (nth 2 guessedFormat "") "dd"
        then assign "" 2 "YY" guessedFormat
        else guessedFormat in
      Array_join "/" guessedFormat
    else "YYYY/mm/dd" in
  let converter :=
    if save
    then mkConverter
           (mkOptions format (alternativeFormat (options converter))
              (decimalPoint (options converter)))
           (parseDateFn converter) (decimalRegex converter)
    else converter in
  (format, converter).

End DataConverter.

(* ===================================================================== *)
(** * Notions used by the statements                                      *)
(* ===================================================================== *)

Module Spec.

Import DataConverter.

(** The converter built with the default options and no custom parser. *)
Definition default_converter : Converter :=
  create (mkUserOptions None None None) None.

(** A later call of [parseDate] on a converter. *)
Record Call : Type := mkCall {
  call_env : Env;
  call_value : string;
  call_format : option string
}.

(** The converter after a sequence of [parseDate] calls. *)
Definition after_calls (converter : Converter) (calls : list Call)
  : Converter :=
  fold_left
    (fun c k => snd (parseDate (call_env k) c (call_value k) (call_format k)))
    calls converter.

(** What a column holds for a row: the cell of that name; where the row has
    none, the row identifier in the [id] column and [undefined] elsewhere. *)
Definition cell_at (name : string) (row : DataTableRow) : CellType :=
  match get name (Row.cells row) with
  | Some v => v
  | None => if String.eqb name "id" then CString (Row.id row) else CUndefined
  end.

(** Whether the scan of the rows meets a column of that name. *)
Definition present (name : string) (rows : list DataTableRow) : bool :=
  String.eqb name "id"
  || existsb (fun row => has name (Row.cells row)) rows.

(** The record of columns after the scan of [rows], continued from the
    record [co] reached at row index [start]. *)
Definition scan (start : nat) (rows : list DataTableRow)
  (co : DataParser.ColumnCollection) : DataParser.ColumnCollection :=
  fold_left DataParser.add_row
    (combine (seq start (List.length rows)) rows) co.

(** The state of the record between two rows: every column met so far
    holds, for each row scanned, what [cell_at] says. *)
Definition scanned (prev : list DataTableRow)
  (co : DataParser.ColumnCollection) : Prop :=
  forall k,
    get k co = if present k prev then Some (map (cell_at k) prev) else None.

(** The state of the record while the cells of [row], the row of index
    [length prev], are entered; [done] lists the names entered so far. *)
Definition entering (prev : list DataTableRow) (row : DataTableRow)
  (done : list string) (co : DataParser.ColumnCollection) : Prop :=
  forall k,
    get k co =
    if present k prev || existsb (String.eqb k) done
    then Some (map (cell_at k) prev ++
                 (if existsb (String.eqb k) done then [Row.getCell row k]
                  else if String.eqb k "id" then [CString (Row.id row)]
                  else []))%list
    else None.

(** The names of an object after [o[k] = v], from its names before. *)
Definition add_key (k : string) (ks : list string) : list string :=
  keys (set k tt (map (fun x => (x, tt)) ks)).

Definition add_keys (names ks : list string) : list string :=
  fold_left (fun ks k => add_key k ks) names ks.

(** Array indices in ascending order, none below [b]. *)
Fixpoint ascending_from (b : N) (ks : list string) : Prop :=
  match ks with
  | [] => True
  | k :: ks' =>
      exists n, array_index k = Some n /\ (b <= n)%N
                /\ ascending_from (N.succ n) ks'
  end.

(** Array indices below [b]. *)
Definition all_below (b : N) (ks : list string) : Prop :=
  Forall (fun k => exists n, array_index k = Some n /\ (n < b)%N) ks.

(** Names that are not array indices. *)
Definition plain_keys (ks : list string) : Prop :=
  Forall (fun k => array_index k = None) ks.

(** The order in which [Object.keys] lists the names of a record of columns:
    the array indices, ascending, then [id], then the other names. *)
Definition keys_in_order (ks : list string) : Prop :=
  exists ints strs,
    ks = (ints ++ "id" :: strs)%list
    /\ ascending_from 0 ints
    /\ plain_keys strs
    /\ NoDup ("id" :: strs).

(** The row that [getTableFromColumns] builds at index [i]. *)
Definition row_of_columns (columns : list (list CellType))
  (headers : list string) (id : string) (i : nat) : DataTableRow :=
  fold_left
    (fun row j =>
       Row.insertCell (nth j headers "") (nth i (nth j columns []) CUndefined)
         row)
    (seq 0 (List.length columns)) (mkRow id []).

(** The rows that [getTableFromColumns] builds for the given indices, the
    identifiers being drawn from the counter [c] on. *)
Fixpoint built_rows (columns : list (list CellType)) (headers : list string)
  (h : string) (c : nat) (indices : list nat) : list DataTableRow :=
  match indices with
  | [] => []
  | i :: indices' =>
      row_of_columns columns headers (U.key_of h c) i
      :: built_rows columns headers h (S c) indices'
  end.

(** The cells of the row built at index [i] from named columns. *)
Definition cells_of_columns (co : DataParser.ColumnCollection) (i : nat)
  : object CellType :=
  fold_left (fun o kc => set (fst kc) (nth i (snd kc) CUndefined) o) co [].

(** A platform on which [Date.parse] recognises nothing, in UTC, in 2020. *)
Definition sample_env : Env :=
  mkEnv (fun _ => DPNumber None) (fun _ => 0) 2020.

Definition sample_keys : U.KeyState := U.mkKeys "7x2k9qz-" 0.

Definition no_series_types : string -> option (option (list string)) :=
  fun _ => None.

(** A table whose columns are met in the order c, a, b. *)
Definition sample_table : DataTable :=
  mkTable
    [ mkRow "r0" [("c", CNumber 1); ("a", CNumber 2); ("b", CNumber 3)];
      mkRow "r1" [("c", CNumber 4); ("b", CNumber 6)] ]
    [].

End Spec.

(* ===================================================================== *)
(** * Data/Stores/DataStore: the registry of store classes                *)
(* ===================================================================== *)

Module DataStoreRegistry.

(** [\w] *)
Definition is_word (c : ascii) : bool :=
  let n := code c in
  is_digit c
  || ((65 <=? n)%nat && (n <=? 90)%nat)
  || ((97 <=? n)%nat && (n <=? 122)%nat)
  || (n =? 95)%nat.

(** [/^function\s+/], the start of [nameRegExp]. *)
Definition name_head : JS.regex := cats [Bol; lit "function"; plus space].

(** [/(?:DataStore)?\s*\(/], the end of [nameRegExp]. *)
Definition name_tail : JS.regex :=
  cats [opt (lit "DataStore"); star space; chr "("].

(** The reluctant group [(\w*?)] of [nameRegExp]: the shortest run of word
    characters after which the end of the pattern matches. *)
Fixpoint reluctant_word (total : nat) (acc rest : list ascii)
  : option (list ascii) :=
  match match_here total name_tail rest with
  | Some _ => Some (rev acc)
  | None =>
      match rest with
      | c :: rest' =>
          if is_word c then reluctant_word total (c :: acc) rest' else None
      | [] => None
      end
  end.

(** [nameRegExp], [/^function\s+(\w*?)(?:DataStore)?\s*\(/], on the text of
    a class: the first group of the match, if there is one.  White space and
    word characters being disjoint, the greedy [\s+] never gives a space
    back. *)
Definition match_name (text : string) : option string :=
  let total := String.length text in
  match match_here total name_head (chars text) with
  | Some (rest, _) =>
      match reluctant_word total [] rest with
      | Some name => Some (str name)
      | None => None
      end
  | None => None
  end.

Section Registry.

(** The store classes, and the text [toString()] gives for each. *)
Variable StoreClass : Type.
Variable toString : StoreClass -> string.

(** [(dataStore.toString().match(DataStore.nameRegExp) || ['', ''])[1]] *)
Definition getName (dataStore : StoreClass) : string :=
  match match_name (toString dataStore) with
  | Some name => name
  | None => ""
  end.

(** [addStore]: the answer and the registry after the call.  The registry
    is a plain object and its classes are functions, so [registry[name]] is
    truthy when the name is registered and when it names a member of
    [Object.prototype]. *)
Definition addStore (dataStore : StoreClass) (registry : object StoreClass)
  : bool * object StoreClass :=
  let name := getName dataStore in
  match lookup name registry with
  | Missing => (true, set name dataStore registry)
  | _ => (false, registry)
  end.

Definition getAllStoreNames (registry : object StoreClass) : list string :=
  keys registry.

(** [registry[name]]. *)
Definition getStore (name : string) (registry : object StoreClass)
  : member StoreClass :=
  lookup name registry.

End Registry.

End DataStoreRegistry.

(* ===================================================================== *)
(** * Further notions and samples                                         *)
(* ===================================================================== *)

Module Samples.

Import DataConverter.

(** No cell of the table has a name that is an array index. *)
Definition plain_cell_names (t : DataTable) : Prop :=
  forall row name,
    In row (Table.getAllRows t) -> In name (Row.getCellNames row) ->
    array_index name = None.

(** No component of the samples is a number from 13 to 31. *)
Definition no_day_evidence (data : list (option string)) : Prop :=
  forall s component,
    In (Some s) data -> In component (split_sample s) ->
    gt (parseInt10 component) 12%float
    && le (parseInt10 component) 31%float = false.

(** A table with a cell whose name is an array index. *)
Definition indexed_table : DataTable :=
  mkTable
    [ mkRow "r0" [("x", CNumber 1); ("y", CNumber 2)];
      mkRow "r1" [("0", CNumber 3); ("x", CNumber 4)] ]
    [].

Definition csv_store_text : string :=
  "function CSVDataStore(table, options) { }".

(** The cells that [getTableFromSeriesOptions] gives to the row of the
    point of index [i]. *)
Definition point_cells (pointArrayMap : list string) (i : nat)
  (point : Point) : object CellType :=
  match point with
  | PArray values =>
      fold_left
        (fun po jv =>
           set (DataParser.map_name pointArrayMap (fst jv)
                  (nat_to_string (fst jv)))
             (snd jv) po)
        (combine (seq 0 (List.length values)) values) []
  | PObject options => options
  | PPrimitive value =>
      of_entries
        [(DataParser.map_name pointArrayMap 0 "x",
           CNumber (of_Z (Z.of_nat i)));
         (DataParser.map_name pointArrayMap 1 "y", value)]
  end.

(** The point brings no identifier of its own: its cells have no [id] that
    is a string. *)
Definition without_id (pointArrayMap : list string) (i : nat)
  (point : Point) : Prop :=
  match get "id" (point_cells pointArrayMap i point) with
  | Some (CString _) => False
  | _ => True
  end.

(** No cell of the table has the name of a member of [Object.prototype]. *)
Definition ordinary_cell_names (t : DataTable) : Prop :=
  forall row name,
    In row (Table.getAllRows t) -> In name (Row.getCellNames row) ->
    inherited name = false.

End Samples.

(* ===================================================================== *)
(** * Properties of the converter                                         *)
(* ===================================================================== *)

(* ===================================================================== *)
(** * Properties of the converter                                         *)
(* ===================================================================== *)

Section ConverterFacts.

Import DataConverter Spec.

(** [parseDate] never writes to the converter: the assignment that stored
    the detected format is commented out in the source. *)
Lemma parseDate_keeps_converter env c value fmt :
  snd (parseDate env c value fmt) = c.
Proof.
  unfold parseDate.
  destruct (parseDateFn c); [reflexivity|].
  destruct (String.eqb _ ""); [destruct (detect _ _ _) as [[? ?]|]; reflexivity|].
  destruct (match get _ dateFormats with Some _ => _ | None => _ end);
    [destruct (String_match _ _)|]; reflexivity.
Qed.

Lemma after_calls_keeps_converter calls : forall c, after_calls c calls = c.
Proof.
  induction calls as [|k calls IH]; intro c; [reflexivity|].
  unfold after_calls in *. simpl.
  rewrite parseDate_keeps_converter. apply IH.
Qed.

(** Without a custom parser and without a format, the result of [parseDate]
    is that of the first format whose pattern matches, or the fall back. *)
Lemma parseDate_auto env c value :
  parseDateFn c = None -> dateFormat (options c) = "" ->
  fst (parseDate env c value None) =
  match detect env value dateFormats with
  | Some (_, result) => result
  | None => parse_fallback env value
  end.
Proof.
  intros Hfn Hfmt. unfold parseDate. rewrite Hfn, Hfmt.
  change ("" =? "")%string with true. cbv beta iota.
  destruct (detect env value dateFormats) as [[? ?]|]; reflexivity.
Qed.

Lemma create_no_parser opts :
  parseDateFn (create opts None) = None.
Proof. reflexivity. Qed.

Lemma create_empty_format af dp fn (df : option string) :
  df = None \/ df = Some "" ->
  dateFormat (options (create (mkUserOptions df af dp) fn)) = "".
Proof. intros [-> | ->]; reflexivity. Qed.

(** C1 (amended): a converter constructed with no custom parse function and
    an empty dateFormat option computes the result of a matching value with
    the first matching format's parser, but the call leaves the converter as
    it was: the stored format stays empty, and a later call without a format
    argument goes through the registry again. *)
Theorem C1_parseDate_detects_without_remembering :
  forall env env' df af dp value value' key result,
    df = None \/ df = Some "" ->
    detect env value dateFormats = Some (key, result) ->
    let c := create (mkUserOptions df af dp) None in
    let c' := snd (parseDate env c value None) in
    fst (parseDate env c value None) = result
    /\ c' = c
    /\ getDateFormat c' = ""
    /\ fst (parseDate env' c' value' None) =
       match detect env' value' dateFormats with
       | Some (_, result') => result'
       | None => parse_fallback env' value'
       end.
Proof.
  intros env env' df af dp value value' key result Hdf Hdet c c'.
  assert (Hc' : c' = c) by apply parseDate_keeps_converter.
  assert (Hfmt : dateFormat (options c) = "")
    by (apply create_empty_format; exact Hdf).
  repeat split.
  - rewrite parseDate_auto by (reflexivity || exact Hfmt).
    rewrite Hdet. reflexivity.
  - exact Hc'.
  - rewrite Hc'. exact Hfmt.
  - rewrite Hc'. apply parseDate_auto; [reflexivity | exact Hfmt].
Qed.

Lemma C1_parseDate_detects_without_remembering_witness :
  detect sample_env "31/12/2020" dateFormats
  = Some ("dd/mm/YYYY", 1609372800000%float)
  /\ fst (parseDate sample_env default_converter "31/12/2020" None)
     = 1609372800000%float
  /\ getDateFormat
       (snd (parseDate sample_env default_converter "31/12/2020" None)) = "".
Proof.
  split; [vm_compute; reflexivity|].
  destruct (C1_parseDate_detects_without_remembering
              sample_env sample_env None None None "31/12/2020" "2020/01/02"
              "dd/mm/YYYY" 1609372800000%float)
    as (H1 & _ & H3 & _).
  - left; reflexivity.
  - vm_compute; reflexivity.
  - split; [exact H1 | exact H3].
Defined.

(** C1 (as stated) fails: "31/12/2020" matches the pattern of dd/mm/YYYY,
    yet after the call the converter holds no format, and the next call
    detects YYYY/mm/dd afresh. *)
Lemma C1_format_not_remembered :
  let c := default_converter in
  let c' := snd (parseDate sample_env c "31/12/2020" None) in
  option_map fst (detect sample_env "31/12/2020" dateFormats)
  = Some "dd/mm/YYYY"
  /\ getDateFormat c' <> "dd/mm/YYYY"
  /\ option_map fst (detect sample_env "2020/01/02" dateFormats)
     = Some "YYYY/mm/dd"
  /\ fst (parseDate sample_env c' "2020/01/02" None) = Date_UTC 2020 0 2.
Proof.
  repeat split; try (vm_compute; reflexivity).
  vm_compute. discriminate.
Qed.

(** C2 (amended): with decimalPoint ",", asNumber of "1 234,5" is 1: the
    string is only stripped of outer white space, the decimal pattern does
    not match it because of the inner space, and parseFloat stops at that
    space.  Without the inner space, "1234,5" gives 1234.5. *)
Theorem C2_asNumber_inner_space :
  forall env df af fn,
    let c := create (mkUserOptions df af (Some ",")) fn in
    trim c "1 234,5" false = "1 234,5"
    /\ asNumber env c (CString "1 234,5") = 1%float
    /\ asNumber env c (CString "1234,5") = 1234.5%float.
Proof.
  intros env df af fn c. repeat split; vm_compute; reflexivity.
Qed.

(** C2 (as stated) fails: the result is not 1234.5. *)
Lemma C2_asNumber_not_1234_5 :
  asNumber sample_env (create (mkUserOptions None None (Some ",")) None)
    (CString "1 234,5") <> 1234.5%float.
Proof.
  intro E.
  apply (f_equal (fun x => PrimFloat.eqb x 1234.5%float)) in E.
  vm_compute in E. discriminate.
Qed.

(** The deduced format depends on the samples only. *)
Lemma deduceDateFormat_format c data limit save :
  fst (deduceDateFormat c data limit save)
  = fst (deduceDateFormat default_converter data limit false).
Proof. unfold deduceDateFormat. destruct save; reflexivity. Qed.

(** C7: the two sample sets are told apart: a component whose maximum
    exceeds 12 is a day, a four-digit component a year. *)
Theorem C7_deduceDateFormat_examples :
  forall c save,
    fst (deduceDateFormat c [Some "31/12/2020"; Some "01/01/2021"] None save)
    = "dd/mm/YYYY"
    /\ fst (deduceDateFormat c [Some "12/31/2020"; Some "01/01/2021"] None
              save)
       = "mm/dd/YYYY".
Proof.
  intros c save. split; rewrite deduceDateFormat_format;
    vm_compute; reflexivity.
Qed.

(** The fall back gives NaN when [Date.parse] does. *)
Lemma parse_fallback_hello env :
  Date_parse env "hello" = DPNumber None ->
  parse_fallback env "hello" = NaN.
Proof.
  intro H. unfold parse_fallback.
  replace (RegExp_test regex_zone "hello") with false
    by (vm_compute; reflexivity).
  rewrite H. reflexivity.
Qed.

(** With the decimal point ".", the pattern built by the constructor has an
    unescaped dot, which stands for any character: trimming rewrites a run
    of digits, and the literal of C8 is then guessed to be a number. *)
Remark guessType_with_dot_decimal_point env :
  let c := create (mkUserOptions None None (Some ".")) None in
  trim c "1577836800000" true = "15778368000.0"
  /\ fst (guessType env c "1577836800000") = TNumber.
Proof. split; vm_compute; reflexivity. Qed.

(** C8: with the default converter, "1577836800000" is guessed to be a
    date, since it is above 365 * 24 * 3600 * 1000, "42" a number, and
    "hello", which is no number and which [Date.parse] does not recognise,
    a string. *)
Theorem C8_guessType_examples :
  forall env,
    Date_parse env "hello" = DPNumber None ->
    fst (guessType env default_converter "1577836800000") = TDate
    /\ fst (guessType env default_converter "42") = TNumber
    /\ fst (guessType env default_converter "hello") = TString.
Proof.
  intros env H.
  split; [vm_compute; reflexivity|].
  split; [vm_compute; reflexivity|].
  unfold guessType.
  replace (trim default_converter "hello" true) with "hello"
    by (vm_compute; reflexivity).
  replace (trim default_converter "hello" false) with "hello"
    by (vm_compute; reflexivity).
  replace (strict_eq (ToNumber "hello") (parseFloat "hello")) with false
    by (vm_compute; reflexivity).
  replace (negb ("hello" =? "")%string) with true by reflexivity.
  pose proof (parseDate_auto env default_converter "hello" eq_refl eq_refl)
    as Hp.
  replace (detect env "hello" dateFormats) with (@None (string * number))
    in Hp by (vm_compute; reflexivity).
  rewrite parse_fallback_hello in Hp by exact H.
  destruct (parseDate env default_converter "hello" None) as [dateVal c'].
  simpl in Hp. subst dateVal. reflexivity.
Qed.

Lemma C8_guessType_examples_witness :
  fst (guessType sample_env default_converter "1577836800000") = TDate
  /\ fst (guessType sample_env default_converter "42") = TNumber
  /\ fst (guessType sample_env default_converter "hello") = TString.
Proof.
  apply (C8_guessType_examples sample_env). reflexivity.
Defined.

(** [deduceDateFormat] stores the format exactly when asked to. *)
Lemma deduceDateFormat_save c data limit :
  snd (deduceDateFormat c data limit false) = c
  /\ getDateFormat (snd (deduceDateFormat c data limit true))
     = fst (deduceDateFormat c data limit true).
Proof. split; reflexivity. Qed.

(** C10: on a converter with no custom parse function and no configured
    format, the result of parseDate on a string does not depend on the
    parseDate calls made before: they leave the converter and its options as
    they were; only deduceDateFormat with its save flag stores a format. *)
Theorem C10_parseDate_independent_of_earlier_calls :
  forall c,
    parseDateFn c = None ->
    dateFormat (options c) = "" ->
    forall env value fmt calls,
      parseDate env (after_calls c calls) value fmt = parseDate env c value fmt
      /\ options (after_calls c calls) = options c
      /\ (forall data limit,
             snd (deduceDateFormat c data limit false) = c
             /\ getDateFormat (snd (deduceDateFormat c data limit true))
                = fst (deduceDateFormat c data limit true)).
Proof.
  intros c _ _ env value fmt calls.
  rewrite after_calls_keeps_converter.
  split; [reflexivity|]. split; [reflexivity|].
  intros data limit. apply deduceDateFormat_save.
Qed.

Lemma C10_parseDate_independent_of_earlier_calls_witness :
  parseDate sample_env
    (after_calls default_converter
       [mkCall sample_env "31/12/2020" None;
        mkCall sample_env "12/31/99" (Some "mm/dd/YY")])
    "2020-01-02" None
  = parseDate sample_env default_converter "2020-01-02" None.
Proof.
  apply (C10_parseDate_independent_of_earlier_calls default_converter
           eq_refl eq_refl sample_env "2020-01-02" None).
Defined.

End ConverterFacts.

(* ===================================================================== *)
(** * Properties of objects and arrays                                    *)
(* ===================================================================== *)

Section ObjectFacts.

Context {V : Type}.
Implicit Types (o : object V) (k : string) (v : V).

Lemma has_get k o : has k o = true <-> exists v, get k o = Some v.
Proof.
  unfold has. destruct (get k o) as [v|]; split; intro H.
  - now exists v.
  - reflexivity.
  - discriminate.
  - destruct H as [v H]; discriminate.
Qed.

Lemma has_false_get k o : has k o = false <-> get k o = None.
Proof.
  unfold has. destruct (get k o); split; intro H; congruence.
Qed.

Lemma has_keys k o : has k o = existsb (String.eqb k) (keys o).
Proof.
  unfold has. induction o as [|[k' v'] o IH]; simpl; [reflexivity|].
  destruct (String.eqb k k'); [reflexivity | exact IH].
Qed.

Lemma In_keys_has k o : In k (keys o) -> has k o = true.
Proof.
  intro H. rewrite has_keys. apply existsb_exists.
  exists k. split; [exact H | apply String.eqb_refl].
Qed.

Lemma has_In_keys k o : has k o = true -> In k (keys o).
Proof.
  rewrite has_keys. intro H. apply existsb_exists in H.
  destruct H as (k' & Hin & E). apply String.eqb_eq in E. now subst.
Qed.

Lemma get_update k k' v o :
  get k' (update k v o)
  = if String.eqb k' k then option_map (fun _ => v) (get k' o) else get k' o.
Proof.
  induction o as [|[k0 v0] o IH]; simpl.
  - now destruct (String.eqb k' k).
  - destruct (String.eqb k k0) eqn:E0; simpl.
    + apply String.eqb_eq in E0. subst k0.
      destruct (String.eqb k' k); reflexivity.
    + destruct (String.eqb k' k0) eqn:E1.
      * apply String.eqb_eq in E1. subst k0.
        rewrite String.eqb_sym in E0. now rewrite E0.
      * exact IH.
Qed.

Lemma get_insert_index n k k' v o :
  has k o = false ->
  get k' (insert_index n k v o)
  = if String.eqb k' k then Some v else get k' o.
Proof.
  induction o as [|[k0 v0] o IH]; intro Hk; simpl.
  - reflexivity.
  - assert (Hk0 : String.eqb k k0 = false /\ has k o = false).
    { unfold has in *. simpl in Hk. destruct (String.eqb k k0);
        [discriminate | now split]. }
    destruct Hk0 as [Hk0 Hko].
    assert (Hhead : get k' ((k, v) :: (k0, v0) :: o)
                    = if String.eqb k' k then Some v
                      else if String.eqb k' k0 then Some v0 else get k' o)
      by reflexivity.
    destruct (array_index k0) as [n'|]; [destruct (n' <? n)%N|]; try exact Hhead.
    simpl. rewrite (IH Hko).
    destruct (String.eqb k' k0) eqn:E0; [|reflexivity].
    apply String.eqb_eq in E0. subst k0.
    rewrite String.eqb_sym in Hk0. now rewrite Hk0.
Qed.

Lemma get_app k v o1 o2 :
  get k (o1 ++ o2)%list
  = match get k o1 with Some x => Some x | None => get k o2 end.
Proof.
  induction o1 as [|[k0 v0] o1 IH]; simpl; [reflexivity|].
  destruct (String.eqb k k0); [reflexivity | exact IH].
Qed.

(** Reading a property after an assignment. *)
Lemma get_set k k' v o :
  get k' (set k v o) = if String.eqb k' k then Some v else get k' o.
Proof.
  unfold set. destruct (has k o) eqn:Hk.
  - rewrite get_update. destruct (String.eqb k' k) eqn:E; [|reflexivity].
    apply String.eqb_eq in E. subst k'.
    apply has_get in Hk. destruct Hk as [x ->]. reflexivity.
  - destruct (array_index k) as [n|].
    + now apply get_insert_index.
    + rewrite (get_app k' v). apply has_false_get in Hk. simpl.
      destruct (String.eqb k' k) eqn:E.
      * apply String.eqb_eq in E. subst k'. now rewrite Hk.
      * now destruct (get k' o).
Qed.

Lemma get_set_same k v o : get k (set k v o) = Some v.
Proof. rewrite get_set. now rewrite String.eqb_refl. Qed.

Lemma get_map_values {W : Type} (f : V -> W) k o :
  get k (map (fun kc => (fst kc, f (snd kc))) o) = option_map f (get k o).
Proof.
  induction o as [|[k0 v0] o IH]; simpl; [reflexivity|].
  destruct (String.eqb k k0); [reflexivity | exact IH].
Qed.

Lemma keys_map_values {W : Type} (f : V -> W) o :
  keys (map (fun kc => (fst kc, f (snd kc))) o) = keys o.
Proof. unfold keys. rewrite map_map. reflexivity. Qed.

End ObjectFacts.

Section ArrayFacts.

Context {A : Type}.

Lemma assign_at_end (hole v : A) l :
  assign hole (List.length l) v l = (l ++ [v])%list.
Proof. induction l as [|x l IH]; simpl; [reflexivity | now rewrite IH]. Qed.

Lemma assign_last (hole v x : A) l :
  assign hole (List.length l) v (l ++ [x])%list = (l ++ [v])%list.
Proof. induction l as [|y l IH]; simpl; [reflexivity | now rewrite IH]. Qed.

Lemma In_sort_insert (cmp : A -> A -> Z) x y l :
  In y (sort_insert cmp x l) -> y = x \/ In y l.
Proof.
  induction l as [|z l IH]; simpl.
  - intros [H|[]]; now left.
  - destruct (0 <? cmp x z); simpl.
    + intros [H|H]; [right; now left|].
      destruct (IH H) as [E|Hin]; [now left | right; now right].
    + intros [H|[H|H]]; [now left | right; now left | right; now right].
Qed.

(** Sorting neither adds nor invents elements. *)
Lemma In_Array_sort (cmp : A -> A -> Z) y l :
  In y (Array_sort cmp l) -> In y l.
Proof.
  induction l as [|x l IH]; simpl; [tauto|].
  intro H. apply In_sort_insert in H. destruct H as [E|H].
  - now left.
  - right. now apply IH.
Qed.

End ArrayFacts.

(* ===================================================================== *)
(** * The scan of a table into columns                                    *)
(* ===================================================================== *)

Section ScanFacts.

Import DataParser Spec.

Lemma new_column_repeat n : new_column n = repeat CUndefined n.
Proof.
  unfold new_column. induction n as [|n IH]; [reflexivity|].
  rewrite seq_S, fold_left_app, IH. simpl.
  rewrite <- (repeat_length CUndefined n) at 1.
  rewrite assign_at_end. symmetry. apply repeat_cons.
Qed.

Lemma getCell_cell_at row k :
  has k (Row.cells row) = true -> Row.getCell row k = cell_at k row.
Proof.
  intro H. apply has_get in H. destruct H as [v H].
  unfold Row.getCell, cell_at. now rewrite H.
Qed.

(** A column that no row has met holds [undefined] for every row. *)
Lemma absent_column k rows :
  present k rows = false ->
  map (cell_at k) rows = repeat CUndefined (List.length rows).
Proof.
  unfold present. intro H. apply orb_false_iff in H. destruct H as [Hid H].
  induction rows as [|row rows IH]; [reflexivity|].
  simpl in H. apply orb_false_iff in H. destruct H as [Hrow H].
  simpl. rewrite (IH H). f_equal.
  unfold cell_at. apply has_false_get in Hrow. now rewrite Hrow, Hid.
Qed.

Lemma present_app k prev row :
  present k (prev ++ [row]) = present k prev || has k (Row.cells row).
Proof.
  unfold present. rewrite existsb_app. simpl.
  rewrite orb_false_r. apply orb_assoc.
Qed.

Lemma existsb_eqb_app k done name :
  existsb (String.eqb k) (done ++ [name])
  = existsb (String.eqb k) done || String.eqb k name.
Proof. rewrite existsb_app. simpl. now rewrite orb_false_r. Qed.

(** Pushing the identifier of the row. *)
Lemma push_id prev row co :
  scanned prev co ->
  entering prev row []
    (match get "id" co with
     | Some idc => set "id" (idc ++ [CString (Row.id row)])%list co
     | None => co
     end).
Proof.
  intros H k. pose proof (H "id") as Hid.
  unfold present in Hid. simpl in Hid. rewrite Hid.
  rewrite get_set. simpl. rewrite orb_false_r.
  destruct (String.eqb k "id") eqn:E.
  - apply String.eqb_eq in E. subst k. reflexivity.
  - rewrite (H k). destruct (present k prev); [|reflexivity].
    now rewrite app_nil_r.
Qed.

(** Entering one cell of the row. *)
Lemma add_cell_entering prev row done co name :
  entering prev row done co ->
  entering prev row (done ++ [name])
    (add_cell (List.length prev) row co name).
Proof.
  intros H k. unfold add_cell.
  pose proof (H name) as Hname.
  rewrite existsb_eqb_app, orb_assoc.
  destruct (has name co) eqn:Hhas; simpl negb; cbv iota.
  - (* the column exists *)
    destruct (present name prev || existsb (String.eqb name) done) eqn:Hp;
      [|apply has_get in Hhas; destruct Hhas as [x Hx]; congruence].
    rewrite Hname. rewrite get_set.
    destruct (String.eqb k name) eqn:E.
    + apply String.eqb_eq in E. subst k. rewrite Hp, !orb_true_r.
      f_equal.
      rewrite <- (length_map (cell_at name) prev).
      destruct (existsb (String.eqb name) done);
        [apply assign_last|].
      destruct (String.eqb name "id"); [apply assign_last|].
      rewrite app_nil_r. apply assign_at_end.
    + rewrite (H k), !orb_false_r. reflexivity.
  - (* the column is created *)
    apply has_false_get in Hhas. rewrite Hhas in Hname.
    destruct (present name prev || existsb (String.eqb name) done) eqn:Hp;
      [discriminate|].
    apply orb_false_iff in Hp. destruct Hp as [Hpres Hdone].
    rewrite get_set_same, get_set, get_set.
    destruct (String.eqb k name) eqn:E.
    + apply String.eqb_eq in E. subst k. rewrite !orb_true_r.
      f_equal. rewrite new_column_repeat, (absent_column _ _ Hpres).
      rewrite <- (repeat_length CUndefined (List.length prev)) at 1.
      apply assign_at_end.
    + rewrite (H k), !orb_false_r. reflexivity.
Qed.

Lemma add_cells_entering prev row names : forall done co,
  entering prev row done co ->
  entering prev row (done ++ names)
    (fold_left (add_cell (List.length prev) row) names co).
Proof.
  induction names as [|name names IH]; intros done co H; simpl.
  - now rewrite app_nil_r.
  - replace (done ++ name :: names)%list with ((done ++ [name]) ++ names)%list
      by (now rewrite <- app_assoc).
    apply IH. now apply add_cell_entering.
Qed.

Lemma pad_column_full l x :
  pad_column (List.length l) (l ++ [x]) = (l ++ [x])%list.
Proof.
  unfold pad_column. rewrite length_app. cbn [List.length].
  replace (S (List.length l) - (List.length l + 1))%nat with 0%nat by lia.
  apply app_nil_r.
Qed.

Lemma pad_column_short l :
  pad_column (List.length l) l = (l ++ [CUndefined])%list.
Proof.
  unfold pad_column.
  replace (S (List.length l) - List.length l)%nat with 1%nat by lia.
  reflexivity.
Qed.

(** Padding the columns the row did not fill. *)
Lemma pad_entered prev row co :
  entering prev row (Row.getCellNames row) co ->
  scanned (prev ++ [row])
    (map (fun kc => (fst kc, pad_column (List.length prev) (snd kc))) co).
Proof.
  intros H k. rewrite get_map_values, (H k), present_app.
  unfold Row.getCellNames. rewrite <- has_keys.
  destruct (present k prev || has k (Row.cells row)); [|reflexivity].
  cbn [option_map]. f_equal. rewrite map_app. cbn [map].
  rewrite <- (length_map (cell_at k) prev).
  destruct (has k (Row.cells row)) eqn:Hk.
  - rewrite pad_column_full. f_equal. f_equal. now apply getCell_cell_at.
  - unfold cell_at. apply has_false_get in Hk. rewrite Hk.
    destruct (String.eqb k "id").
    + apply pad_column_full.
    + rewrite app_nil_r. apply pad_column_short.
Qed.

Lemma add_row_scanned prev row co :
  scanned prev co ->
  scanned (prev ++ [row]) (add_row co (List.length prev, row)).
Proof.
  intro H. unfold add_row. apply pad_entered.
  apply (add_cells_entering prev row (Row.getCellNames row) []).
  now apply push_id.
Qed.

Lemma scan_scanned rows : forall prev co,
  scanned prev co ->
  scanned (prev ++ rows) (scan (List.length prev) rows co).
Proof.
  induction rows as [|row rows IH]; intros prev co H; unfold scan; simpl.
  - now rewrite app_nil_r.
  - replace (prev ++ row :: rows)%list with ((prev ++ [row]) ++ rows)%list
      by (now rewrite <- app_assoc).
    replace (S (List.length prev)) with (List.length (prev ++ [row]))
      by (rewrite length_app; simpl; lia).
    apply IH. now apply add_row_scanned.
Qed.

(** Every column of the record holds, row by row, the cell of its name. *)
Lemma columnsObject_scanned t :
  scanned (Table.rows t) (columnsObject t).
Proof.
  apply (scan_scanned (Table.rows t) [] [("id", [])]).
  intro k. unfold present. simpl. rewrite orb_false_r.
  now destruct (String.eqb k "id").
Qed.

Lemma column_of_key t name :
  In name (keys (columnsObject t)) ->
  column (columnsObject t) name = map (cell_at name) (Table.rows t).
Proof.
  intro Hin. apply In_keys_has in Hin. unfold column.
  pose proof (columnsObject_scanned t name) as H.
  apply has_get in Hin. destruct Hin as [col Hcol].
  rewrite Hcol in *. destruct (present name (Table.rows t)); congruence.
Qed.

(** C6: every column array that getColumnsFromTable returns has as many
    entries as the table has rows; it is the column of one of the names met
    during the scan, and holds undefined at the rows that lack the cell
    (the id column holds the row identifier there). *)
Theorem C6_columns_have_row_count_length :
  forall t usePresentationOrder col,
    In col (getColumnsFromTable t usePresentationOrder) ->
    List.length col = Table.getRowCount t
    /\ exists name,
         In name (keys (columnsObject t))
         /\ col = map (cell_at name) (Table.getAllRows t)
         /\ forall i row,
              nth_error (Table.getAllRows t) i = Some row ->
              has name (Row.cells row) = false ->
              nth_error col i =
              Some (if String.eqb name "id" then CString (Row.id row)
                    else CUndefined).
Proof.
  intros t flag col Hin. unfold getColumnsFromTable in Hin.
  apply in_map_iff in Hin. destruct Hin as (name & Hcol & Hname).
  assert (Hkey : In name (keys (columnsObject t))).
  { destruct flag; [now apply In_Array_sort in Hname | exact Hname]. }
  rewrite (column_of_key t name Hkey) in Hcol. subst col.
  split; [apply length_map|].
  exists name. split; [exact Hkey|]. split; [reflexivity|].
  intros i row Hrow Hlack. unfold Table.getAllRows in Hrow.
  rewrite nth_error_map, Hrow. simpl. f_equal.
  unfold cell_at. apply has_false_get in Hlack. now rewrite Hlack.
Qed.

Lemma C6_columns_have_row_count_length_witness :
  List.length [CNumber 2; CUndefined] = Table.getRowCount sample_table
  /\ exists name,
       In name (keys (columnsObject sample_table))
       /\ [CNumber 2; CUndefined]
          = map (cell_at name) (Table.getAllRows sample_table)
       /\ forall i row,
            nth_error (Table.getAllRows sample_table) i = Some row ->
            has name (Row.cells row) = false ->
            nth_error [CNumber 2; CUndefined] i =
            Some (if String.eqb name "id" then CString (Row.id row)
                  else CUndefined).
Proof.
  apply (C6_columns_have_row_count_length sample_table false).
  vm_compute. right. right. left. reflexivity.
Defined.

End ScanFacts.

(* ===================================================================== *)
(** * Series options and column export                                    *)
(* ===================================================================== *)

Section SeriesAndExport.

Import DataParser DataStore Spec.

(** C4 (amended): the positional point [3,7] with the map ['x','y'] becomes
    a row with a generated identifier and the cells x = 3 and y = 7; the way
    back gives the structured point with the fields id, x and y, not the
    positional point. *)
Theorem C4_series_round_trip_gives_structured_point :
  forall seriesTypes type ks,
    let id := U.key_of (U.hash ks) (U.counter ks) in
    let t :=
      fst (getTableFromSeriesOptions seriesTypes
             (mkSeries type (Some [PArray [CNumber 3; CNumber 7]]))
             ["x"; "y"] ks) in
    Table.getAllRows t = [mkRow id [("x", CNumber 3); ("y", CNumber 7)]]
    /\ getSeriesOptionsFromTable t
       = mkSeries None
           (Some [PObject [("id", CString id); ("x", CNumber 3);
                           ("y", CNumber 7)]]).
Proof.
  intros seriesTypes type ks id t. split; reflexivity.
Qed.

(** C4 (as stated) fails: the point that comes back is not [3,7]. *)
Lemma C4_round_trip_not_positional :
  series_data
    (getSeriesOptionsFromTable
       (fst (getTableFromSeriesOptions no_series_types
               (mkSeries None (Some [PArray [CNumber 3; CNumber 7]]))
               ["x"; "y"] sample_keys)))
  <> Some [PArray [CNumber 3; CNumber 7]].
Proof. vm_compute. discriminate. Qed.

(** C9: when the columns of the table are met in the order c, a, b and the
    store is told the order a, b, c, the export without argument names the
    columns a, b, c, leaves the id column out, and gives for each name, at
    the same position, the column of that name. *)
Theorem C9_export_follows_column_order :
  forall t,
    keys (toColumns t) = ["id"; "c"; "a"; "b"] ->
    let store := setColumnOrder ["a"; "b"; "c"] (create (Some t) None) in
    let (columnNames, columnValues) := getColumnsForExport false store in
    columnNames = ["a"; "b"; "c"]
    /\ ~ In "id" columnNames
    /\ columnValues = map (column (toColumns t)) columnNames
    /\ columnValues = map (fun name => map (cell_at name) (Table.getAllRows t))
                        columnNames.
Proof.
  intros t Hkeys store.
  assert (Hexport : getColumnsForExport false store
                    = (["a"; "b"; "c"],
                       map (column (toColumns t)) ["a"; "b"; "c"])).
  { unfold getColumnsForExport.
    change (table store) with t. rewrite Hkeys.
    change (rev (getColumnOrder store)) with [Some "c"; Some "b"; Some "a"].
    reflexivity. }
  rewrite Hexport. split; [reflexivity|]. split.
  - simpl. intuition discriminate.
  - split; [reflexivity|]. unfold toColumns in *. simpl.
    rewrite !column_of_key by (rewrite Hkeys; simpl; tauto).
    reflexivity.
Qed.

Lemma C9_export_follows_column_order_witness :
  getColumnsForExport false
    (setColumnOrder ["a"; "b"; "c"] (create (Some sample_table) None))
  = (["a"; "b"; "c"],
     [[CNumber 2; CUndefined]; [CNumber 3; CNumber 6];
      [CNumber 1; CNumber 4]]).
Proof.
  pose proof (C9_export_follows_column_order sample_table eq_refl) as H.
  cbv zeta in H.
  destruct (getColumnsForExport false
              (setColumnOrder ["a"; "b"; "c"]
                 (create (Some sample_table) None)))
    as [names values].
  destruct H as (Hn & _ & _ & Hv). subst names values. reflexivity.
Defined.

End SeriesAndExport.

(* ===================================================================== *)
(** * The order of the names of an object                                 *)
(* ===================================================================== *)

Section KeyOrder.

Import Spec.

Lemma array_index_inj k k' n :
  array_index k = Some n -> array_index k' = Some n -> k = k'.
Proof.
  unfold array_index. intros H H'.
  destruct (DecimalString.NilEmpty.uint_of_string k) as [d|]; [|discriminate].
  destruct (DecimalString.NilEmpty.uint_of_string k') as [d'|]; [|discriminate].
  destruct (String.eqb _ k) eqn:E; [|discriminate].
  destruct (String.eqb _ k') eqn:E'; [|discriminate].
  simpl in H, H'.
  destruct (N.of_uint d <? 4294967295)%N; [|discriminate].
  destruct (N.of_uint d' <? 4294967295)%N; [|discriminate].
  apply String.eqb_eq in E, E'.
  injection H as H. injection H' as H'. congruence.
Qed.

Lemma id_is_plain : array_index "id" = None.
Proof. reflexivity. Qed.

Section Setting.

Context {V W : Type} (f : V -> W).
Implicit Types (o : object V) (k : string) (v : V).

Local Abbreviation mv := (map (fun kc : string * V => (fst kc, f (snd kc)))).

Lemma has_map_values k o : has k (mv o) = has k o.
Proof. now rewrite !has_keys, keys_map_values. Qed.

Lemma update_map_values k v o : mv (update k v o) = update k (f v) (mv o).
Proof.
  induction o as [|[k0 v0] o IH]; simpl; [reflexivity|].
  destruct (String.eqb k k0); simpl; [reflexivity | now rewrite IH].
Qed.

Lemma insert_index_map_values n k v o :
  mv (insert_index n k v o) = insert_index n k (f v) (mv o).
Proof.
  induction o as [|[k0 v0] o IH]; simpl; [reflexivity|].
  destruct (array_index k0) as [n'|]; [destruct (n' <? n)%N|]; simpl;
    try reflexivity.
  now rewrite IH.
Qed.

Lemma set_map_values k v o : mv (set k v o) = set k (f v) (mv o).
Proof.
  unfold set. rewrite has_map_values. destruct (has k o).
  - apply update_map_values.
  - destruct (array_index k).
    + apply insert_index_map_values.
    + now rewrite map_app.
Qed.

End Setting.

(** The names after an assignment depend on the names before only. *)
Lemma keys_set {V : Type} k (v : V) (o : object V) :
  keys (set k v o) = add_key k (keys o).
Proof.
  unfold add_key.
  rewrite <- (keys_map_values (fun _ => tt) (set k v o)).
  rewrite (set_map_values (fun _ : V => tt)).
  f_equal. f_equal. unfold keys. now rewrite map_map.
Qed.

Lemma keys_update {V : Type} k (v : V) (o : object V) :
  keys (update k v o) = keys o.
Proof.
  induction o as [|[k0 v0] o IH]; simpl; [reflexivity|].
  destruct (String.eqb k k0); simpl; [reflexivity | now rewrite IH].
Qed.

Lemma has_unit_keys k ks :
  has k (map (fun x => (x, tt)) ks) = existsb (String.eqb k) ks.
Proof.
  rewrite has_keys. unfold keys. rewrite map_map. simpl. now rewrite map_id.
Qed.

Lemma keys_unit ks : keys (map (fun x => (x, tt)) ks) = ks.
Proof. unfold keys. rewrite map_map. simpl. apply map_id. Qed.

Lemma existsb_eqb_In k ks : existsb (String.eqb k) ks = true <-> In k ks.
Proof.
  rewrite existsb_exists. split.
  - intros (x & Hin & E). apply String.eqb_eq in E. now subst.
  - intro H. exists k. split; [exact H | apply String.eqb_refl].
Qed.

Lemma existsb_eqb_not_In k ks : ~ In k ks -> existsb (String.eqb k) ks = false.
Proof.
  intro H. destruct (existsb (String.eqb k) ks) eqn:E; [|reflexivity].
  apply existsb_eqb_In in E. contradiction.
Qed.

Lemma add_key_present k ks : In k ks -> add_key k ks = ks.
Proof.
  intro H. unfold add_key, set.
  rewrite has_unit_keys. apply existsb_eqb_In in H. rewrite H.
  rewrite keys_update. apply keys_unit.
Qed.

Lemma add_key_plain k ks :
  ~ In k ks -> array_index k = None -> add_key k ks = (ks ++ [k])%list.
Proof.
  intros H Hk. unfold add_key, set.
  rewrite has_unit_keys, (existsb_eqb_not_In _ _ H), Hk.
  unfold keys. rewrite map_app, map_map. simpl. now rewrite map_id.
Qed.

(** Where a new array index goes: behind the smaller indices. *)
Lemma insert_index_split n k (i1 rest : list string) :
  all_below n i1 ->
  match rest with
  | [] => True
  | k' :: _ =>
      match array_index k' with
      | Some n' => (n' <? n)%N = false
      | None => True
      end
  end ->
  keys (insert_index n k tt (map (fun x => (x, tt)) (i1 ++ rest)))
  = (i1 ++ k :: rest)%list.
Proof.
  intros Hbelow Hrest. induction Hbelow as [|x i1 (m & Hx & Hm) _ IH]; simpl.
  - destruct rest as [|k' rest]; [reflexivity|]. simpl.
    destruct (array_index k') as [n'|].
    + rewrite Hrest. simpl. now rewrite keys_unit.
    + simpl. now rewrite keys_unit.
  - rewrite Hx. apply N.ltb_lt in Hm. rewrite Hm. simpl. now rewrite IH.
Qed.

Lemma add_key_index n k i1 rest :
  ~ In k (i1 ++ rest) -> array_index k = Some n ->
  all_below n i1 ->
  match rest with
  | [] => True
  | k' :: _ =>
      match array_index k' with
      | Some n' => (n' <? n)%N = false
      | None => True
      end
  end ->
  add_key k (i1 ++ rest) = (i1 ++ k :: rest)%list.
Proof.
  intros H Hk Hbelow Hrest. unfold add_key, set.
  rewrite has_unit_keys, (existsb_eqb_not_In _ _ H), Hk.
  now apply insert_index_split.
Qed.

Lemma all_below_weaken b b' ks :
  (b <= b')%N -> all_below b ks -> all_below b' ks.
Proof.
  intros Hb H. unfold all_below in *.
  eapply Forall_impl; [|exact H].
  intros k (n & Hn & Hlt). exists n. split; [exact Hn | lia].
Qed.

Lemma ascending_from_weaken b b' ks :
  (b' <= b)%N -> ascending_from b ks -> ascending_from b' ks.
Proof.
  intros Hb H. destruct ks as [|k ks]; [exact I|].
  destruct H as (n & Hn & Hle & H). exists n.
  split; [exact Hn|]. split; [lia | exact H].
Qed.

Lemma ascending_from_In b ks k :
  ascending_from b ks -> In k ks ->
  exists n, array_index k = Some n /\ (b <= n)%N.
Proof.
  revert b. induction ks as [|x ks IH]; intros b H Hin; [destruct Hin|].
  destruct H as (n & Hn & Hle & H). destruct Hin as [-> | Hin].
  - now exists n.
  - destruct (IH _ H Hin) as (m & Hm & Hlem). exists m.
    split; [exact Hm | lia].
Qed.

Lemma ascending_from_NoDup b ks : ascending_from b ks -> NoDup ks.
Proof.
  revert b. induction ks as [|x ks IH]; intros b H; [constructor|].
  destruct H as (n & Hn & Hle & H). constructor; [|now apply (IH _ H)].
  intro Hin. destruct (ascending_from_In _ _ _ H Hin) as (m & Hm & Hlem).
  rewrite Hn in Hm. injection Hm as <-. lia.
Qed.

(** Splitting ascending indices around a new one. *)
Lemma ascending_split b ints k n :
  ascending_from b ints -> ~ In k ints -> array_index k = Some n ->
  exists i1 i2,
    ints = (i1 ++ i2)%list
    /\ all_below n i1
    /\ ascending_from (N.succ n) i2
    /\ ascending_from (N.min b n) (i1 ++ k :: i2).
Proof.
  revert b. induction ints as [|x ints IH]; intros b H Hnot Hk.
  - exists [], []. repeat split; try constructor.
    exists n. split; [exact Hk|]. split; [lia | exact I].
  - destruct H as (m & Hx & Hle & H).
    destruct (N.ltb_spec m n) as [Hlt | Hge].
    + destruct (IH (N.succ m) H) as (i1 & i2 & -> & Hb & Ha & Hall);
        [intro; apply Hnot; now right | exact Hk |].
      exists (x :: i1), i2. split; [reflexivity|].
      split; [constructor; [now exists m | exact Hb]|].
      split; [exact Ha|].
      exists m. split; [exact Hx|]. split; [lia|].
      replace (N.min (N.succ m) n) with (N.succ m) in Hall by lia.
      exact Hall.
    + assert (m <> n).
      { intros ->. apply Hnot. left. now apply (array_index_inj x k n). }
      exists [], (x :: ints). split; [reflexivity|].
      split; [constructor|]. split.
      * exists m. split; [exact Hx|]. split; [lia | exact H].
      * exists n. split; [exact Hk|]. split; [lia|].
        exists m. split; [exact Hx|]. split; [lia | exact H].
Qed.

Lemma plain_not_ascending b ints k :
  ascending_from b ints -> array_index k = None -> ~ In k ints.
Proof.
  intros H Hk Hin. destruct (ascending_from_In _ _ _ H Hin) as (n & Hn & _).
  congruence.
Qed.

Lemma index_not_plain strs k n :
  plain_keys strs -> array_index k = Some n -> ~ In k strs.
Proof.
  intros H Hk Hin. unfold plain_keys in H. rewrite Forall_forall in H.
  specialize (H _ Hin). congruence.
Qed.

(** Assignments keep the names in the order of [Object.keys]. *)
Lemma add_key_in_order k ks : keys_in_order ks -> keys_in_order (add_key k ks).
Proof.
  intros (ints & strs & -> & Hasc & Hplain & Hnd).
  destruct (in_dec string_dec k (ints ++ "id" :: strs)) as [Hin | Hnot].
  - rewrite add_key_present by exact Hin. now exists ints, strs.
  - destruct (array_index k) as [n|] eqn:Hk.
    + destruct (ascending_split 0 ints k n Hasc) as (i1 & i2 & -> & Hb & Ha & Hall);
        [intro; apply Hnot; apply in_or_app; now left | exact Hk |].
      rewrite N.min_0_l in Hall.
      rewrite <- app_assoc.
      rewrite (add_key_index n).
      * exists (i1 ++ k :: i2)%list, strs.
        split; [now rewrite <- app_assoc|].
        split; [exact Hall|]. now split.
      * now rewrite app_assoc.
      * exact Hk.
      * exact Hb.
      * destruct i2 as [|x i2]; simpl; [exact I|].
        destruct Ha as (m & -> & Hle & _). apply N.ltb_ge. lia.
    + rewrite add_key_plain by assumption.
      exists ints, (strs ++ [k])%list.
      split; [now rewrite <- app_assoc|]. split; [exact Hasc|].
      split.
      * apply Forall_app. split; [exact Hplain | now constructor].
      * change ("id" :: strs ++ [k])%list with (("id" :: strs) ++ [k])%list.
        apply NoDup_app; [exact Hnd | constructor; [intros []|constructor] |].
        intros x Hx [<- | []]. apply Hnot. apply in_or_app. now right.
Qed.

Lemma add_keys_in_order names : forall ks,
  keys_in_order ks -> keys_in_order (add_keys names ks).
Proof.
  induction names as [|k names IH]; intros ks H; [exact H|].
  apply IH. now apply add_key_in_order.
Qed.

Lemma keys_in_order_NoDup ks : keys_in_order ks -> NoDup ks.
Proof.
  intros (ints & strs & -> & Hasc & Hplain & Hnd).
  apply NoDup_app; [now apply (ascending_from_NoDup 0) | exact Hnd |].
  intros x Hx [<- | Hin].
  - now apply (plain_not_ascending 0 ints "id" Hasc).
  - destruct (ascending_from_In _ _ _ Hasc Hx) as (n & Hn & _).
    now apply (index_not_plain strs x n).
Qed.


(** Entering ascending indices into names that hold smaller indices only. *)
Lemma add_keys_ascending i2 : forall b i1 strs,
  all_below b i1 -> ascending_from b i2 -> plain_keys strs ->
  add_keys i2 (i1 ++ strs) = (i1 ++ i2 ++ strs)%list.
Proof.
  induction i2 as [|k i2 IH]; intros b i1 strs Hb Ha Hp; [reflexivity|].
  destruct Ha as (n & Hk & Hle & Ha).
  unfold add_keys. simpl. fold (add_keys i2).
  rewrite (add_key_index n).
  - change (i1 ++ k :: strs)%list with (i1 ++ [k] ++ strs)%list.
    rewrite app_assoc. rewrite (IH (N.succ n)).
    + now rewrite <- app_assoc.
    + apply Forall_app. split.
      * apply (all_below_weaken b); [lia | exact Hb].
      * constructor; [|constructor]. exists n. split; [exact Hk | lia].
    + exact Ha.
    + exact Hp.
  - intro Hin. apply in_app_or in Hin. destruct Hin as [Hin | Hin].
    + unfold all_below in Hb. rewrite Forall_forall in Hb.
      destruct (Hb _ Hin) as (m & Hm & Hlt). rewrite Hk in Hm.
      injection Hm as <-. lia.
    + now apply (index_not_plain strs k n).
  - exact Hk.
  - apply (all_below_weaken b); [exact Hle | exact Hb].
  - destruct strs as [|s strs]; [exact I|].
    inversion Hp as [|? ? Hs _]. now rewrite Hs.
Qed.

(** Entering new plain names appends them. *)
Lemma add_keys_plain strs : forall base,
  plain_keys strs -> NoDup strs -> (forall k, In k strs -> ~ In k base) ->
  add_keys strs base = (base ++ strs)%list.
Proof.
  induction strs as [|k strs IH]; intros base Hp Hnd Hdis.
  - now rewrite app_nil_r.
  - inversion Hp as [|? ? Hk Hp']. inversion Hnd as [|? ? Hnotin Hnd']. subst.
    unfold add_keys. simpl. fold (add_keys strs).
    rewrite add_key_plain; [|apply Hdis; now left | exact Hk].
    rewrite (IH _ Hp' Hnd').
    + now rewrite <- app_assoc.
    + intros x Hx Hin. apply in_app_or in Hin. destruct Hin as [Hin | [<- | []]].
      * apply (Hdis x); [now right | exact Hin].
      * contradiction.
Qed.


Lemma add_keys_app l1 l2 ks :
  add_keys (l1 ++ l2) ks = add_keys l2 (add_keys l1 ks).
Proof. unfold add_keys. apply fold_left_app. Qed.

(** Names in the order of [Object.keys], entered in that order into an
    empty object or into one that has [id] only, come out in the same
    order. *)
Lemma add_keys_in_order_fresh ks :
  keys_in_order ks -> add_keys ks [] = ks /\ add_keys ks ["id"] = ks.
Proof.
  intros (ints & strs & -> & Hasc & Hplain & Hnd).
  assert (Hidp : plain_keys ("id" :: strs))
    by (constructor; [exact id_is_plain | exact Hplain]).
  assert (H1 : add_keys ints [] = ints).
  { pose proof (add_keys_ascending ints 0 [] [] (Forall_nil _) Hasc
                  (Forall_nil _)) as H.
    simpl in H. now rewrite app_nil_r in H. }
  assert (H2 : add_keys ints ["id"] = (ints ++ ["id"])%list).
  { exact (add_keys_ascending ints 0 [] ["id"] (Forall_nil _) Hasc
             (Forall_cons _ id_is_plain (Forall_nil _))). }
  rewrite !add_keys_app, H1, H2. split.
  - apply add_keys_plain; [exact Hidp | exact Hnd |].
    intros k [<- | Hin] Hk.
    + now apply (plain_not_ascending 0 ints "id" Hasc).
    + destruct (ascending_from_In _ _ _ Hasc Hk) as (n & Hn & _).
      now apply (index_not_plain strs k n).
  - unfold add_keys at 1. simpl fold_left. fold (add_keys strs).
    rewrite add_key_present by (apply in_or_app; right; now left).
    inversion Hnd as [|? ? Hnotin Hnd']. subst.
    rewrite add_keys_plain; [now rewrite <- app_assoc | exact Hplain | exact Hnd' |].
    intros k Hin Hk. apply in_app_or in Hk. destruct Hk as [Hk | [<- | []]].
    + destruct (ascending_from_In _ _ _ Hasc Hk) as (n & Hn & _).
      now apply (index_not_plain strs k n).
    + contradiction.
Qed.

(** Two objects with the same names, none twice, and the same values are
    the same object. *)
Lemma object_ext {V : Type} (o1 : object V) : forall o2 : object V,
  keys o1 = keys o2 -> NoDup (keys o1) ->
  (forall k, In k (keys o1) -> get k o1 = get k o2) ->
  o1 = o2.
Proof.
  induction o1 as [|[k v] o1 IH]; intros [|[k' v'] o2] Hk Hnd Hget;
    try discriminate; [reflexivity|].
  simpl in Hk. injection Hk as <- Hk. inversion Hnd as [|? ? Hnot Hnd']. subst.
  pose proof (Hget k (or_introl eq_refl)) as Hv. simpl in Hv.
  rewrite String.eqb_refl in Hv. injection Hv as <-.
  f_equal. apply IH; [exact Hk | exact Hnd' |].
  intros x Hx. specialize (Hget x (or_intror Hx)). simpl in Hget.
  destruct (String.eqb x k) eqn:E; [|exact Hget].
  apply String.eqb_eq in E. subst x. contradiction.
Qed.

End KeyOrder.

(* ===================================================================== *)
(** * Tables built from columns                                           *)
(* ===================================================================== *)

Section FromColumns.

Import DataParser Spec.

(** *** Generated keys *)

Lemma append_inj_r (s a b : string) : (s ++ a = s ++ b)%string -> a = b.
Proof.
  induction s as [|c s IH]; simpl; intro H; [exact H|].
  injection H as H. now apply IH.
Qed.

Lemma nat_to_string_inj n m : nat_to_string n = nat_to_string m -> n = m.
Proof.
  unfold nat_to_string. intro H.
  apply DecimalNat.Unsigned.to_uint_inj.
  pose proof (DecimalString.NilEmpty.usu (Nat.to_uint n)) as Hn.
  pose proof (DecimalString.NilEmpty.usu (Nat.to_uint m)) as Hm.
  rewrite H in Hn. rewrite Hn in Hm. now injection Hm.
Qed.

Lemma key_of_inj h n m : U.key_of h n = U.key_of h m -> n = m.
Proof.
  unfold U.key_of. intro H.
  apply append_inj_r in H. apply append_inj_r in H.
  now apply nat_to_string_inj.
Qed.

(** *** The names of the record of columns *)

Lemma keys_add_cell n row co name :
  keys (add_cell n row co name) = add_key name (keys co).
Proof.
  unfold add_cell. destruct (has name co) eqn:Hhas; simpl negb; cbv iota.
  - apply has_get in Hhas. destruct Hhas as [col ->]. apply keys_set.
  - rewrite get_set_same, keys_set, keys_set.
    apply add_key_present.
    rewrite <- (keys_set name (new_column n) co).
    apply has_In_keys. apply has_get.
    eexists. apply get_set_same.
Qed.

Lemma keys_add_cells n row names : forall co,
  keys (fold_left (add_cell n row) names co) = add_keys names (keys co).
Proof.
  induction names as [|k names IH]; intro co; [reflexivity|].
  simpl. rewrite IH, keys_add_cell. reflexivity.
Qed.

Lemma keys_add_row co n row :
  keys (add_row co (n, row)) = add_keys (Row.getCellNames row) (keys co).
Proof.
  unfold add_row. rewrite keys_map_values, keys_add_cells. f_equal.
  destruct (get "id" co) as [idc|] eqn:Hid; [|reflexivity].
  rewrite keys_set. apply add_key_present. apply has_In_keys.
  apply has_get. now exists idc.
Qed.

Lemma keys_scan rows : forall start co,
  keys (scan start rows co)
  = fold_left (fun ks row => add_keys (Row.getCellNames row) ks) rows
      (keys co).
Proof.
  induction rows as [|row rows IH]; intros start co; [reflexivity|].
  unfold scan in *. cbn [List.length seq combine fold_left].
  rewrite IH, keys_add_row. reflexivity.
Qed.

Lemma columnsObject_keys t :
  keys (columnsObject t)
  = fold_left (fun ks row => add_keys (Row.getCellNames row) ks)
      (Table.rows t) ["id"].
Proof. apply (keys_scan (Table.rows t) 0 [("id", [])]). Qed.

(** The names of the record of columns come in the order of
    [Object.keys]. *)
Lemma columnsObject_keys_in_order t : keys_in_order (keys (columnsObject t)).
Proof.
  rewrite columnsObject_keys.
  assert (H0 : keys_in_order ["id"]).
  { exists [], []. repeat split; try constructor; [intros [] | constructor]. }
  revert H0. generalize ["id"]. generalize (Table.rows t).
  intro rows. induction rows as [|row rows IH]; intros ks H; [exact H|].
  simpl. apply IH. now apply add_keys_in_order.
Qed.


(** *** The rows built from the columns *)

Lemma row_of_columns_id columns headers id i :
  Row.id (row_of_columns columns headers id i) = id.
Proof.
  unfold row_of_columns.
  generalize (seq 0 (List.length columns)). intro js.
  change id with (Row.id (mkRow id [])) at 2.
  generalize (mkRow id []). induction js as [|j js IH]; intro row;
    [reflexivity|].
  simpl. rewrite IH. unfold Row.insertCell.
  now destruct (has _ (Row.cells row)).
Qed.

Lemma built_rows_length columns headers h indices : forall c,
  List.length (built_rows columns headers h c indices) = List.length indices.
Proof.
  induction indices as [|i indices IH]; intro c; simpl;
    [reflexivity | now rewrite IH].
Qed.

Lemma nth_error_built_rows columns headers h indices : forall c m,
  nth_error (built_rows columns headers h c indices) m
  = option_map
      (fun i => row_of_columns columns headers (U.key_of h (c + m)) i)
      (nth_error indices m).
Proof.
  induction indices as [|i indices IH]; intros c m; destruct m as [|m]; simpl;
    try reflexivity.
  - now rewrite Nat.add_0_r.
  - rewrite IH. now rewrite Nat.add_succ_r.
Qed.


(** The rows are inserted one after the other: their identifiers are new. *)
Lemma build_rows_spec columns headers indices : forall table ks,
  (forall r, In r (Table.rows table) ->
             exists m, (m < U.counter ks)%nat
                       /\ Row.id r = U.key_of (U.hash ks) m) ->
  build_rows columns headers indices table ks
  = (mkTable
       (Table.rows table
          ++ built_rows columns headers (U.hash ks) (U.counter ks) indices)
       (Table.columnOrder table),
     U.mkKeys (U.hash ks) (U.counter ks + List.length indices)).
Proof.
  induction indices as [|i indices IH]; intros table ks Hold.
  - simpl. unfold U.ret. rewrite app_nil_r, Nat.add_0_r.
    destruct table, ks; reflexivity.
  - cbn [build_rows]. unfold U.bind at 1.
    change (Row.create [] ks)
      with (mkRow (U.key_of (U.hash ks) (U.counter ks)) [],
            U.mkKeys (U.hash ks) (S (U.counter ks))).
    cbv iota beta.
    fold (row_of_columns columns headers
            (U.key_of (U.hash ks) (U.counter ks)) i).
    set (row := row_of_columns columns headers
                  (U.key_of (U.hash ks) (U.counter ks)) i).
    assert (Hins : Table.insertRow row table
                   = mkTable (Table.rows table ++ [row])
                       (Table.columnOrder table)).
    { unfold Table.insertRow.
      destruct (existsb _ (Table.rows table)) eqn:E; [|reflexivity].
      apply existsb_exists in E. destruct E as (r & Hr & E).
      apply String.eqb_eq in E. destruct (Hold r Hr) as (m & Hm & Hid).
      unfold row in E. rewrite row_of_columns_id, Hid in E.
      apply key_of_inj in E. lia. }
    rewrite Hins, IH.
    + cbn [Table.rows Table.columnOrder U.hash U.counter built_rows List.length].
      fold row. rewrite <- app_assoc.
      f_equal. f_equal. lia.
    + cbn [Table.rows U.hash U.counter]. intros r Hr.
      apply in_app_or in Hr. destruct Hr as [Hr | [<- | []]].
      * destruct (Hold r Hr) as (m & Hm & Hid). exists m. split; [lia | exact Hid].
      * exists (U.counter ks). split; [lia|].
        unfold row. apply row_of_columns_id.
Qed.

(** With a header for every column, the table has the rows built for the
    indices of the first column. *)
Lemma getTableFromColumns_rows first rest headers ks :
  List.length headers = List.length (first :: rest) ->
  Table.rows (fst (getTableFromColumns (first :: rest) headers ks))
  = built_rows (first :: rest) headers (U.hash ks) (U.counter ks)
      (seq 0 (List.length first)).
Proof.
  intro Hlen. unfold getTableFromColumns. rewrite Hlen, Nat.sub_diag.
  cbn [fill_headers]. unfold U.bind, U.ret at 1.
  rewrite build_rows_spec; [reflexivity|].
  intros r [].
Qed.

(** *** The cells of a built row *)

Lemma fold_left_ext {A B : Type} (f g : A -> B -> A) l :
  (forall a b, f a b = g a b) -> forall a, fold_left f l a = fold_left g l a.
Proof.
  intro H. induction l as [|b l IH]; intro a; simpl;
    [reflexivity | now rewrite H, IH].
Qed.

Lemma fold_left_seq_nth {A B : Type} (g : A -> B -> A) (d : B) l :
  forall a,
    fold_left (fun a j => g a (nth j l d)) (seq 0 (List.length l)) a
    = fold_left g l a.
Proof.
  induction l as [|b l IH] using rev_ind; intro a; [reflexivity|].
  rewrite length_app, Nat.add_comm. cbn [List.length Nat.add].
  rewrite seq_S, !fold_left_app. cbn [fold_left Nat.add].
  rewrite nth_middle. f_equal. rewrite <- IH.
  clear IH. generalize a. clear a.
  assert (H : forall j, In j (seq 0 (List.length l)) ->
                        nth j (l ++ [b]) d = nth j l d).
  { intros j Hj. apply in_seq in Hj. apply app_nth1. lia. }
  revert H. generalize (seq 0 (List.length l)). intro js.
  induction js as [|j js IHjs]; intros H a; [reflexivity|].
  simpl. rewrite (H j) by now left. apply IHjs.
  intros x Hx. apply H. now right.
Qed.

(** Inserting cells under names that are all different sets them. *)
Lemma insert_cells_set (i : nat) (hcs : list (string * list CellType)) :
  forall row,
    NoDup (keys hcs) ->
    (forall h, In h (keys hcs) -> has h (Row.cells row) = false) ->
    fold_left
      (fun row hc =>
         Row.insertCell (fst hc) (nth i (snd hc) CUndefined) row) hcs row
    = mkRow (Row.id row)
        (fold_left (fun o hc => set (fst hc) (nth i (snd hc) CUndefined) o)
           hcs (Row.cells row)).
Proof.
  induction hcs as [|[h col] hcs IH]; intros row Hnd Hfree.
  - now destruct row.
  - inversion Hnd as [|? ? Hnot Hnd']. subst.
    cbn [fold_left fst snd]. unfold Row.insertCell at 2.
    rewrite (Hfree h) by now left.
    rewrite IH; [reflexivity | exact Hnd' |].
    intros h' Hh'. cbn [Row.cells].
    apply has_false_get. rewrite get_set.
    destruct (String.eqb h' h) eqn:E.
    + apply String.eqb_eq in E. subst h'. contradiction.
    + apply has_false_get. apply Hfree. now right.
Qed.

Lemma keys_combine (headers : list string) (columns : list (list CellType)) :
  List.length headers = List.length columns ->
  keys (combine headers columns) = headers.
Proof.
  revert columns. induction headers as [|h headers IH];
    intros [|c columns] H; try discriminate; [reflexivity|].
  simpl. f_equal. apply IH. now injection H.
Qed.

Lemma row_of_columns_cells columns headers id i :
  List.length headers = List.length columns -> NoDup headers ->
  row_of_columns columns headers id i
  = mkRow id (cells_of_columns (combine headers columns) i).
Proof.
  intros Hlen Hnd. unfold row_of_columns, cells_of_columns.
  rewrite (fold_left_ext _
             (fun row j =>
                (fun row (hc : string * list CellType) =>
                   Row.insertCell (fst hc) (nth i (snd hc) CUndefined) row)
                  row (nth j (combine headers columns) ("", [])))).
  - replace (List.length columns)
      with (List.length (combine headers columns))
      by (rewrite length_combine; lia).
    rewrite (fold_left_seq_nth
               (fun row (hc : string * list CellType) =>
                  Row.insertCell (fst hc) (nth i (snd hc) CUndefined) row)).
    rewrite insert_cells_set; [reflexivity | |].
    + now rewrite keys_combine.
    + intros h _. reflexivity.
  - intros row j. now rewrite combine_nth.
Qed.

(** The names and values of the cells set from a list of named columns. *)
Lemma keys_fold_set {V : Type} (g : string * list CellType -> V)
  (l : list (string * list CellType)) :
  forall o : object V,
    keys (fold_left (fun o kc => set (fst kc) (g kc) o) l o)
    = add_keys (keys l) (keys o).
Proof.
  induction l as [|kc l IH]; intro o; [reflexivity|].
  simpl. rewrite IH, keys_set. reflexivity.
Qed.

Lemma get_not_In {V : Type} k (o : object V) : ~ In k (keys o) -> get k o = None.
Proof.
  intro H. apply has_false_get.
  destruct (has k o) eqn:E; [|reflexivity].
  apply has_In_keys in E. contradiction.
Qed.

Lemma get_fold_set {V : Type} (phi : list CellType -> V)
  (l : list (string * list CellType)) k :
  NoDup (keys l) ->
  forall o : object V,
    get k (fold_left (fun o kc => set (fst kc) (phi (snd kc)) o) l o)
    = match get k l with
      | Some c => Some (phi c)
      | None => get k o
      end.
Proof.
  induction l as [|[k0 c0] l IH]; intros Hnd o; [reflexivity|].
  inversion Hnd as [|? ? Hnot Hnd']. subst.
  cbn [fold_left fst snd]. rewrite (IH Hnd'), get_set. simpl.
  destruct (String.eqb k k0) eqn:E; [|reflexivity].
  apply String.eqb_eq in E. subst k0. now rewrite (get_not_In k l Hnot).
Qed.

Lemma cells_of_columns_keys co i :
  keys_in_order (keys co) -> keys (cells_of_columns co i) = keys co.
Proof.
  intro H. unfold cells_of_columns.
  rewrite (keys_fold_set (fun kc => nth i (snd kc) CUndefined)).
  apply (add_keys_in_order_fresh _ H).
Qed.

Lemma cells_of_columns_get co i k :
  NoDup (keys co) ->
  get k (cells_of_columns co i)
  = option_map (fun col => nth i col CUndefined) (get k co).
Proof.
  intro H. unfold cells_of_columns.
  rewrite (get_fold_set (fun col => nth i col CUndefined)) by exact H.
  now destruct (get k co).
Qed.

(** *** Names and values of an object *)




End FromColumns.

(* ===================================================================== *)
(** * Columns to table and back                                           *)
(* ===================================================================== *)

Section RoundTrip.

Import DataParser Spec.


Lemma get_of_key {V : Type} k (o : object V) :
  In k (keys o) -> exists v, get k o = Some v.
Proof. intro H. apply has_get. now apply In_keys_has. Qed.


Lemma get_combine_nth (headers : list string) :
  forall (columns : list (list CellType)) j,
    List.length headers = List.length columns -> NoDup headers ->
    (j < List.length columns)%nat ->
    get (nth j headers "") (combine headers columns)
    = Some (nth j columns []).
Proof.
  induction headers as [|h headers IH]; intros [|c columns] j Hlen Hnd Hj;
    try discriminate; [simpl in Hj; lia|].
  inversion Hnd as [|? ? Hnot Hnd']. subst.
  destruct j as [|j]; simpl.
  - now rewrite String.eqb_refl.
  - destruct (String.eqb (nth j headers "") h) eqn:E.
    + apply String.eqb_eq in E. exfalso. apply Hnot. rewrite <- E.
      apply nth_In. simpl in Hlen, Hj. lia.
    + apply IH; [now injection Hlen | exact Hnd' | simpl in Hj; lia].
Qed.

(** C3 (amended): getTableFromColumns signals no error when the columns
    have different lengths.  Given a header for every column, all different,
    the table has one row per entry of the first column; the cell of row [i]
    under header [j] is the entry [i] of column [j], and undefined where
    that column is too short; entries beyond the length of the first column
    are in no row. *)
Theorem C3_unequal_columns_build_a_table :
  forall first rest headers ks,
    let columns := first :: rest in
    List.length headers = List.length columns ->
    NoDup headers ->
    let t := fst (getTableFromColumns columns headers ks) in
    Table.getRowCount t = List.length first
    /\ forall i j,
         (i < List.length first)%nat -> (j < List.length columns)%nat ->
         exists row,
           nth_error (Table.getAllRows t) i = Some row
           /\ Row.getCell row (nth j headers "")
              = nth i (nth j columns []) CUndefined
           /\ ((List.length (nth j columns []) <= i)%nat ->
               Row.getCell row (nth j headers "") = CUndefined).
Proof.
  intros first rest headers ks columns Hlen Hnd t.
  assert (Hrows : Table.rows t
                  = built_rows columns headers (U.hash ks) (U.counter ks)
                      (seq 0 (List.length first)))
    by (apply getTableFromColumns_rows; exact Hlen).
  unfold Table.getRowCount, Table.getAllRows. rewrite Hrows.
  split; [now rewrite built_rows_length, length_seq|].
  intros i j Hi Hj.
  rewrite nth_error_built_rows, (nth_error_nth' _ 0%nat)
    by (now rewrite length_seq).
  rewrite seq_nth by exact Hi. cbn [option_map Nat.add].
  eexists. split; [reflexivity|].
  assert (Hcell : Row.getCell
                    (row_of_columns columns headers
                       (U.key_of (U.hash ks) (U.counter ks + i)) i)
                    (nth j headers "")
                  = nth i (nth j columns []) CUndefined).
  { rewrite row_of_columns_cells by assumption.
    unfold Row.getCell. cbn [Row.cells].
    rewrite cells_of_columns_get by (now rewrite keys_combine).
    assert (Hget : get (nth j headers "") (combine headers columns)
                   = Some (nth j columns []))
      by (apply get_combine_nth; assumption).
    now rewrite Hget. }
  split; [exact Hcell|].
  intro Hshort. rewrite Hcell. now apply nth_overflow.
Qed.

Lemma C3_unequal_columns_build_a_table_witness :
  Table.getRowCount
    (fst (getTableFromColumns
            [[CNumber 1; CNumber 2]; [CNumber 3]] ["a"; "b"] sample_keys))
  = 2%nat.
Proof.
  apply (C3_unequal_columns_build_a_table
           [CNumber 1; CNumber 2] [[CNumber 3]] ["a"; "b"] sample_keys).
  - reflexivity.
  - repeat constructor; simpl; intuition discriminate.
Defined.

(** C3 (as stated) fails: columns of lengths 2 and 1 give a table whose
    second row has an undefined cell that no column holds, and columns of
    lengths 1 and 2 give a table without the second entry of the longer
    column. *)
Lemma C3_no_error_on_unequal_columns :
  Table.getAllRows
    (fst (getTableFromColumns
            [[CNumber 1; CNumber 2]; [CNumber 3]] ["a"; "b"] sample_keys))
  = [ mkRow "highcharts-7x2k9qz-0" [("a", CNumber 1); ("b", CNumber 3)];
      mkRow "highcharts-7x2k9qz-1" [("a", CNumber 2); ("b", CUndefined)] ]
  /\ Table.getAllRows
       (fst (getTableFromColumns
               [[CNumber 1]; [CNumber 3; CNumber 4]] ["a"; "b"] sample_keys))
     = [ mkRow "highcharts-7x2k9qz-0" [("a", CNumber 1); ("b", CNumber 3)] ].
Proof. split; vm_compute; reflexivity. Qed.

End RoundTrip.

(* ===================================================================== *)
(** * Further properties of the converter                                 *)
(* ===================================================================== *)

Section ConverterMore.

Import DataConverter Spec Samples.

(** X1: the detection of a format never chooses a month-first format: the
    patterns of mm/dd/YYYY and mm/dd/YY are those of dd/mm/YYYY and dd/mm/YY,
    which come first in the registry. *)
Theorem X1_detect_never_month_first :
  forall env value key result,
    detect env value dateFormats = Some (key, result) ->
    key = "YYYY/mm/dd" \/ key = "dd/mm/YYYY" \/ key = "dd/mm/YY".
Proof.
  intros env value key result.
  unfold dateFormats. cbn [detect regex parser].
  destruct (String_match regex_YYYY_mm_dd value);
    [intro H; injection H as <- _; now left|].
  destruct (String_match regex_dd_mm_YYYY value);
    [intro H; injection H as <- _; right; now left|].
  destruct (String_match regex_dd_mm_YY value);
    [intro H; injection H as <- _; right; now right | discriminate].
Qed.

Lemma X1_detect_never_month_first_witness :
  "dd/mm/YYYY" = "YYYY/mm/dd" \/ "dd/mm/YYYY" = "dd/mm/YYYY"
  \/ "dd/mm/YYYY" = "dd/mm/YY".
Proof.
  apply (X1_detect_never_month_first sample_env "12/31/2020" "dd/mm/YYYY"
           (Date_UTC 2020 30 12)).
  vm_compute. reflexivity.
Defined.

(** X2: a format name that is given and under which the registry of
    formats has nothing, neither a format of its own nor a member
    inherited from Object.prototype, is read as YYYY/mm/dd.  (Under an
    inherited name such as toString the code takes the inherited member
    for the format and fails; such names are not in the scope of
    [parseDate] as defined here.) *)
Theorem X2_parseDate_unregistered_format :
  forall env c value fmt,
    fmt <> "" ->
    lookup fmt dateFormats = Missing ->
    parseDate env c value (Some fmt)
    = parseDate env c value (Some "YYYY/mm/dd").
Proof.
  intros env c value fmt Hne Hmissing. unfold parseDate.
  assert (Hget : get fmt dateFormats = None).
  { unfold lookup in Hmissing.
    destruct (get fmt dateFormats); [discriminate | reflexivity]. }
  destruct fmt as [|a fmt]; [contradiction|].
  cbv iota. rewrite Hget.
  now replace (String.eqb (String a fmt) "") with false by reflexivity.
Qed.

Lemma X2_parseDate_unregistered_format_witness :
  parseDate sample_env default_converter "2020-02-03" (Some "mm/YY/YYYY")
  = parseDate sample_env default_converter "2020-02-03" (Some "YYYY/mm/dd").
Proof.
  apply X2_parseDate_unregistered_format; [discriminate | reflexivity].
Defined.

(** X3: a limit of zero stands for all the samples, and a limit [n] above
    zero makes the deduction read the first [n] samples only. *)
Theorem X3_deduceDateFormat_limit :
  forall c data n save,
    deduceDateFormat c data (Some n) save
    = deduceDateFormat c
        (match n with O => data | S _ => firstn n data end) None save.
Proof.
  intros c data n save. unfold deduceDateFormat.
  destruct n as [|n]; [reflexivity|].
  assert (H : firstn
                (if (List.length data <? S n)%nat then List.length data
                 else S n) data
              = firstn (List.length (firstn (S n) data))
                  (firstn (S n) data)).
  { rewrite firstn_all.
    destruct (Nat.ltb_spec (List.length data) (S n)) as [Hlt | Hge].
    - rewrite firstn_all. symmetry. apply firstn_all2. lia.
    - reflexivity. }
  rewrite H. reflexivity.
Qed.

Lemma deduce_component_made d jt :
  madeDeduction (deduce_component d jt) = true ->
  madeDeduction d = true
  \/ gt (parseInt10 (snd jt)) 12%float && le (parseInt10 (snd jt)) 31%float = true.
Proof.
  destruct jt as [j comp]. unfold deduce_component. cbn [snd].
  destruct (j <? _)%nat; [|now left].
  destruct (truthy _); [|now left].
  destruct (gt (parseInt10 comp) 31%float).
  - destruct (lt (parseInt10 comp) 100%float); cbn [madeDeduction]; now left.
  - destruct (gt (parseInt10 comp) 12%float && le (parseInt10 comp) 31%float);
      [now right|].
    destruct (String.eqb _ ""); cbn [madeDeduction]; now left.
Qed.

Lemma deduce_components_made comps : forall d,
  (forall jt, In jt comps ->
     gt (parseInt10 (snd jt)) 12%float && le (parseInt10 (snd jt)) 31%float = false) ->
  madeDeduction d = false ->
  madeDeduction (fold_left deduce_component comps d) = false.
Proof.
  induction comps as [|jt comps IH]; intros d Hall Hd; [exact Hd|].
  cbn [fold_left]. apply IH.
  - intros x Hx. apply Hall. now right.
  - destruct (madeDeduction (deduce_component d jt)) eqn:E; [|reflexivity].
    apply deduce_component_made in E. destruct E as [E | E].
    + congruence.
    + rewrite (Hall jt) in E by now left. discriminate.
Qed.

Lemma deduce_samples_made data : forall d,
  no_day_evidence data ->
  madeDeduction d = false ->
  madeDeduction (fold_left deduce_sample data d) = false.
Proof.
  induction data as [|sample data IH]; intros d Hall Hd; [exact Hd|].
  cbn [fold_left]. apply IH.
  - intros s comp Hs. apply Hall. now right.
  - unfold deduce_sample. destruct sample as [s|]; [|exact Hd].
    destruct s as [|a s]; [exact Hd|].
    apply deduce_components_made; [|exact Hd].
    intros [j comp] Hin. apply in_combine_r in Hin. cbn [snd].
    exact (Hall (String a s) comp (or_introl eq_refl) Hin).
Qed.

(** X4: when no component of the samples is a number from 13 to 31, no
    deduction is made and the format is the default YYYY/mm/dd, whatever
    the order of the components in the samples. *)
Theorem X4_deduceDateFormat_without_evidence :
  forall c data limit save,
    no_day_evidence data ->
    fst (deduceDateFormat c data limit save) = "YYYY/mm/dd".
Proof.
  intros c data limit save H. unfold deduceDateFormat.
  set (n := match limit with
            | Some (S _ as l) =>
                if (List.length data <? l)%nat then List.length data else l
            | _ => List.length data
            end).
  rewrite deduce_samples_made; [reflexivity | | reflexivity].
  intros s comp Hs. apply H.
  rewrite <- (firstn_skipn n data). apply in_or_app. now left.
Qed.

Lemma X4_deduceDateFormat_without_evidence_witness :
  fst (deduceDateFormat default_converter
         [Some "01/02/2020"; Some "11/12/2021"] None false)
  = "YYYY/mm/dd".
Proof.
  apply X4_deduceDateFormat_without_evidence.
  intros s comp [E | [E | []]]; injection E as <-;
    intros [<- | [<- | [<- | []]]]; vm_compute; reflexivity.
Defined.


Lemma length_assign_ge {A : Type} (hole v : A) j : forall l,
  (List.length l <= List.length (assign hole j v l))%nat.
Proof.
  induction j as [|j IH]; intros [|x l]; simpl; try lia.
  specialize (IH l). lia.
Qed.

Lemma deduce_component_length d jt :
  (List.length (guessedFormat d)
   <= List.length (guessedFormat (deduce_component d jt)))%nat.
Proof.
  destruct jt as [j comp]. unfold deduce_component.
  destruct (j <? _)%nat; [|lia].
  destruct (truthy _); [|lia].
  destruct (gt (parseInt10 comp) 31%float).
  - destruct (lt (parseInt10 comp) 100%float); cbn [guessedFormat];
      apply length_assign_ge.
  - destruct (gt (parseInt10 comp) 12%float && le (parseInt10 comp) 31%float);
      [cbn [guessedFormat]; apply length_assign_ge|].
    destruct (String.eqb _ ""); cbn [guessedFormat];
      [apply length_assign_ge | lia].
Qed.

Lemma deduce_components_length comps : forall d,
  (List.length (guessedFormat d)
   <= List.length (guessedFormat (fold_left deduce_component comps d)))%nat.
Proof.
  induction comps as [|jt comps IH]; intro d; cbn [fold_left]; [lia|].
  pose proof (deduce_component_length d jt).
  specialize (IH (deduce_component d jt)). lia.
Qed.

(** Once a deduction is made, there are three guesses. *)
Lemma deduce_samples_three data : forall d,
  (madeDeduction d = true -> (3 <= List.length (guessedFormat d))%nat) ->
  madeDeduction (fold_left deduce_sample data d) = true ->
  (3 <= List.length (guessedFormat (fold_left deduce_sample data d)))%nat.
Proof.
  induction data as [|sample data IH]; intros d Hd; [exact Hd|].
  cbn [fold_left]. apply IH.
  unfold deduce_sample. destruct sample as [s|]; [|exact Hd].
  destruct s as [|a s]; [exact Hd|]. intros _.
  match goal with
  | |- context [fold_left deduce_component ?cs ?d0] =>
      pose proof (deduce_components_length cs d0) as H
  end.
  cbn [guessedFormat List.length] in H. exact H.
Qed.

Lemma repairs_length st mx js : forall gf,
  (List.length gf <= List.length (fold_left (repair st mx) js gf))%nat.
Proof.
  induction js as [|j js IH]; intro gf; cbn [fold_left]; [lia|].
  specialize (IH (repair st mx gf j)).
  assert (List.length gf <= List.length (repair st mx gf j))%nat; [|lia].
  unfold repair.
  destruct (at_index st j) as [[?|]|];
    match goal with
    | |- context [if ?b then _ else _] => destruct b
    end; try lia; apply length_assign_ge.
Qed.

Lemma append_nonempty (a b : string) : b <> "" -> (a ++ b)%string <> "".
Proof.
  intro Hb. destruct a; simpl; [exact Hb | discriminate].
Qed.

Lemma Array_join_nonempty sep l :
  sep <> "" -> (2 <= List.length l)%nat -> Array_join sep l <> "".
Proof.
  intros Hsep Hl. destruct l as [|a [|b l]]; simpl in Hl; try lia.
  change (Array_join sep (a :: b :: l))
    with (a ++ sep ++ Array_join sep (b :: l))%string.
  apply append_nonempty. destruct sep; [contradiction | discriminate].
Qed.

(** The deduced format is never the empty name. *)
Lemma deduceDateFormat_nonempty c data limit save :
  fst (deduceDateFormat c data limit save) <> "".
Proof.
  unfold deduceDateFormat.
  match goal with
  | |- context [fold_left deduce_sample ?l ?d0] =>
      pose proof (deduce_samples_three l d0) as H3;
      set (d := fold_left deduce_sample l d0) in *
  end.
  cbn [fst]. destruct (madeDeduction d) eqn:Hmade; [|discriminate].
  specialize (H3 (fun H => False_ind _ (Bool.diff_false_true H)) eq_refl).
  apply Array_join_nonempty; [discriminate|].
  pose proof (repairs_length (stable d) (max d)
                (seq 0 (List.length (stable d))) (guessedFormat d)) as Hr.
  match goal with
  | |- context [if ?b then _ else _] => destruct b
  end.
  - match goal with
    | |- context [assign "" 2 "YY" ?l] =>
        pose proof (length_assign_ge "" "YY" 2 l)
    end. lia.
  - lia.
Qed.

(** X5: a format deduced with the save flag is never empty, is stored on
    the converter, and is the one that later parseDate calls without a
    format argument use. *)
Theorem X5_saved_format_drives_parseDate :
  forall env c data limit value,
    let format := fst (deduceDateFormat c data limit true) in
    let c' := snd (deduceDateFormat c data limit true) in
    format <> ""
    /\ getDateFormat c' = format
    /\ fst (parseDate env c' value None)
       = fst (parseDate env c value (Some format)).
Proof.
  intros env c data limit value format c'.
  assert (Hne : format <> "") by apply deduceDateFormat_nonempty.
  split; [exact Hne|]. split; [reflexivity|].
  unfold parseDate.
  change (parseDateFn c') with (parseDateFn c).
  change (dateFormat (options c')) with format.
  destruct format as [|a f]; [contradiction|]. cbv iota.
  destruct (parseDateFn c); [reflexivity|].
  destruct (String.eqb (String a f) "");
    [destruct (detect env value dateFormats) as [[? ?]|]; reflexivity|].
  destruct (match get (String a f) dateFormats with
            | Some x => Some x
            | None => get "YYYY/mm/dd" dateFormats
            end);
    [destruct (String_match _ value)|]; reflexivity.
Qed.

(** *** Strings that are not numbers *)

Lemma length_chars s : List.length (chars s) = String.length s.
Proof. induction s as [|c s IH]; simpl; [reflexivity | now rewrite IH]. Qed.

Lemma chars_append a b : chars (a ++ b) = (chars a ++ chars b)%list.
Proof. induction a as [|c a IH]; simpl; [reflexivity | now rewrite IH]. Qed.

Lemma str_chars s : str (chars s) = s.
Proof. apply string_of_list_ascii_of_string. Qed.

(** No white space to strip where another character stands. *)
Lemma outer_space_fails total a l :
  is_space a = false ->
  match_here total regex_outer_space (a :: l) = None.
Proof.
  intro Ha. unfold match_here, regex_outer_space.
  cbn -[is_space Nat.eqb]. rewrite Ha.
  now destruct (_ =? total)%nat.
Qed.

(** A match found further on leaves the text passed before it. *)
Lemma search_from_before total r : forall rest pre m,
  search_from total r pre rest = Some m ->
  exists x, before m = (List.rev pre ++ x)%list.
Proof.
  induction rest as [|c rest IH]; intros pre m H; cbn [search_from] in H;
    destruct (match_here total r _) as [[rest' cs]|].
  - injection H as <-. exists []. cbn [before]. now rewrite app_nil_r.
  - discriminate.
  - injection H as <-. exists []. cbn [before]. now rewrite app_nil_r.
  - apply IH in H. destruct H as [x Hx]. exists (c :: x).
    rewrite Hx. cbn [List.rev]. now rewrite <- app_assoc.
Qed.

Lemma replace_outer_space_first fuel total a l :
  is_space a = false ->
  exists l',
    replace_all_from (S fuel) total regex_outer_space [] (a :: l) = a :: l'.
Proof.
  intro Ha. cbn [replace_all_from search_from].
  rewrite outer_space_fails by exact Ha.
  destruct (search_from total regex_outer_space [a] l) as [m|] eqn:E;
    [|now exists l].
  apply search_from_before in E. destruct E as [x Hx].
  rewrite Hx. cbn [List.rev app]. eexists. reflexivity.
Qed.

(** A pattern anchored at the start matches nowhere else. *)
Lemma search_from_anchored total X : forall rest pre,
  (List.length rest < total)%nat ->
  search_from total (Cat Bol X) pre rest = None.
Proof.
  induction rest as [|c rest IH]; intros pre Hlt; cbn [search_from];
    unfold match_here; cbn [run];
    rewrite (proj2 (Nat.eqb_neq _ _)) by lia; [reflexivity|].
  apply IH. simpl in Hlt. lia.
Qed.

(** The pattern of a decimal number matches no string whose first
    character is neither a digit nor the minus sign. *)
Lemma decimal_regex_no_match dp r a s :
  decimal_regex dp = Some r ->
  is_digit a = false -> is_char "-" a = false ->
  String_match r (String a s) = None.
Proof.
  intros Hr Hdigit Hminus. unfold String_match.
  cbn [chars list_ascii_of_string String.length search_from].
  fold (chars s).
  assert (Hlen : (List.length (chars s) < S (String.length s))%nat)
    by (rewrite length_chars; lia).
  assert (Hhead : forall X,
             run (S (String.length s))
               (Cat Bol
                  (Cat (Group 1 (Cat (opt (chr "-")) (plus digit))) X))
               (a :: chars s) [] (fun rest' cs => Some (rest', cs)) = None).
  { intro X. cbn -[is_char is_digit Nat.eqb]. rewrite Hminus, Hdigit.
    now destruct (_ =? _)%nat. }
  unfold decimal_regex in Hr.
  destruct (String.eqb dp "."); [|destruct (String.eqb dp ",")];
    try discriminate; injection Hr as <-; unfold match_here;
    cbn [cats]; rewrite Hhead; now apply search_from_anchored.
Qed.

Lemma trim_keeps_first opts fn a s :
  is_space a = false -> is_digit a = false -> is_char "-" a = false ->
  exists s', trim (create opts fn) (String a s) false = String a s'.
Proof.
  intros Hspace Hdigit Hminus. unfold trim. cbn [andb].
  unfold String_replace_all.
  cbn [chars list_ascii_of_string String.length]. fold (chars s).
  destruct (replace_outer_space_first (S (String.length s))
              (S (String.length s)) a (chars s) Hspace) as [l' ->].
  cbn [str string_of_list_ascii]. fold (str l').
  destruct (decimalRegex (create opts fn)) as [r|] eqn:Hr;
    [|now exists (str l')].
  exists (str l'). unfold String_replace.
  rewrite (decimal_regex_no_match
             (match user_decimalPoint opts with Some dp => dp | None => "" end)
             r); try assumption.
  - reflexivity.
  - unfold create in Hr. cbn [decimalRegex decimalPoint] in Hr.
    now destruct (user_decimalPoint opts).
Qed.

Lemma one_of_false chars_ a c :
  one_of chars_ a = false -> In c (chars chars_) -> is_char c a = false.
Proof.
  unfold one_of, is_char. intros H Hin.
  destruct (Ascii.eqb c a) eqn:E; [|reflexivity].
  apply Ascii.eqb_eq in E. subst c.
  assert (Htrue : existsb (Ascii.eqb a) (chars chars_) = true).
  { apply existsb_exists. exists a. split; [exact Hin | apply Ascii.eqb_refl]. }
  congruence.
Qed.

Lemma parseFloat_not_a_number a s :
  is_space a = false -> is_digit a = false ->
  one_of "+-.I" a = false ->
  parseFloat (String a s) = NaN.
Proof.
  intros Hspace Hdigit Hone.
  assert (Hplus : is_char "+" a = false)
    by (apply (one_of_false "+-.I"); [exact Hone | simpl; tauto]).
  assert (Hminus : is_char "-" a = false)
    by (apply (one_of_false "+-.I"); [exact Hone | simpl; tauto]).
  assert (Hdot : is_char "." a = false)
    by (apply (one_of_false "+-.I"); [exact Hone | simpl; tauto]).
  assert (HI : Ascii.eqb "I" a = false)
    by (apply (one_of_false "+-.I"); [exact Hone | simpl; tauto]).
  unfold parseFloat, drop_while.
  cbn [chars list_ascii_of_string span]. rewrite Hspace. cbn [snd].
  unfold scan_decimal, scan_sign. rewrite Hminus, Hplus.
  cbn [starts_with chars list_ascii_of_string]. rewrite HI.
  cbn [span]. rewrite Hdigit, Hdot. reflexivity.
Qed.

(** X6: asNumber never gives NaN for a string or a boolean, and for a
    converter made by the constructor it gives 0 for every string that
    does not start with a number: one whose first character is not white
    space, a digit, a sign, a dot or the I of Infinity. *)
Theorem X6_asNumber_string_is_a_number :
  forall env opts fn a s,
    is_space a = false -> is_digit a = false -> one_of "+-.I" a = false ->
    asNumber env (create opts fn) (CString (String a s)) = zero
    /\ forall c text b,
         isNaN (asNumber env c (CString text)) = false
         /\ isNaN (asNumber env c (CBoolean b)) = false.
Proof.
  intros env opts fn a s Hspace Hdigit Hone. split.
  - assert (Hminus : is_char "-" a = false)
      by (apply (one_of_false "+-.I"); [exact Hone | simpl; tauto]).
    destruct (trim_keeps_first opts fn a s Hspace Hdigit Hminus) as [s' Hs].
    unfold asNumber. rewrite Hs.
    now rewrite parseFloat_not_a_number.
  - intros c text b. unfold asNumber. split.
    + destruct (isNaN (parseFloat (trim c text false))) eqn:E; cbn [negb];
        [reflexivity | exact E].
    + now destruct b.
Qed.

Lemma X6_asNumber_string_is_a_number_witness :
  asNumber sample_env
    (create (mkUserOptions None None (Some ",")) None)
    (CString "n/a 12,5")
  = zero.
Proof.
  refine (proj1 (X6_asNumber_string_is_a_number sample_env
                   (mkUserOptions None None (Some ",")) None
                   "n" "/a 12,5" _ _ _));
    reflexivity.
Defined.

End ConverterMore.

(* ===================================================================== *)
(** * Further properties of the store                                     *)
(* ===================================================================== *)

Section StoreMore.

Import DataStore DataStoreRegistry Spec Samples.

(** *** The registry *)

(** X7: a class whose name is neither registered nor the name of a member
    of Object.prototype is registered under that name; what the registry
    gives for the other names is unchanged. *)
Theorem X7_addStore_registers_new_name :
  forall (StoreClass : Type) (toString : StoreClass -> string)
         (dataStore : StoreClass) (registry : object StoreClass),
    let name := getName StoreClass toString dataStore in
    getStore StoreClass name registry = Missing ->
    let (added, registry') := addStore StoreClass toString dataStore registry in
    added = true
    /\ getStore StoreClass name registry' = Own dataStore
    /\ forall other,
         other <> name ->
         getStore StoreClass other registry'
         = getStore StoreClass other registry.
Proof.
  intros StoreClass toString dataStore registry name Hfree.
  unfold addStore. fold name. unfold getStore in *. rewrite Hfree.
  split; [reflexivity|]. split.
  - unfold lookup. now rewrite get_set_same.
  - intros other Hother. unfold lookup. rewrite get_set.
    apply String.eqb_neq in Hother. now rewrite Hother.
Qed.

Lemma X7_addStore_registers_new_name_witness :
  addStore string (fun text => text) csv_store_text []
  = (true, [("CSV", csv_store_text)]).
Proof.
  pose proof (X7_addStore_registers_new_name string (fun text => text)
                csv_store_text [] eq_refl) as H.
  cbv zeta in H.
  destruct (addStore string (fun text => text) csv_store_text [])
    as [added registry'] eqn:E.
  destruct H as (-> & _ & _). rewrite <- E. reflexivity.
Defined.

(** X8: of two classes with the same name, added one after the other, the
    second is refused and the registry stays as the first call left it;
    when the name was free before, it is the first class that the registry
    gives for the name. *)
Theorem X8_addStore_first_registration_wins :
  forall (StoreClass : Type) (toString : StoreClass -> string)
         (first second : StoreClass) (registry : object StoreClass),
    getName StoreClass toString second = getName StoreClass toString first ->
    let registry1 := snd (addStore StoreClass toString first registry) in
    addStore StoreClass toString second registry1 = (false, registry1)
    /\ (getStore StoreClass (getName StoreClass toString first) registry
        = Missing
        -> getStore StoreClass (getName StoreClass toString first) registry1
           = Own first).
Proof.
  intros StoreClass toString first second registry Hname registry1.
  set (name := getName StoreClass toString first) in *.
  assert (Hreg : lookup name registry1 <> Missing
                 /\ (lookup name registry = Missing ->
                     lookup name registry1 = Own first)).
  { unfold registry1, addStore. fold name.
    destruct (lookup name registry) eqn:E; cbn [snd];
      try (rewrite E; split; [discriminate | discriminate]).
    unfold lookup. rewrite get_set_same. split; [discriminate | reflexivity]. }
  destruct Hreg as [Htaken Hfirst]. split.
  - unfold addStore at 1. rewrite Hname. fold name.
    destruct (lookup name registry1); [reflexivity | reflexivity |].
    now elim Htaken.
  - exact Hfirst.
Qed.

Lemma X8_addStore_first_registration_wins_witness :
  addStore string (fun text => text) "function CSVDataStore() { }"
    (snd (addStore string (fun text => text) csv_store_text []))
  = (false, snd (addStore string (fun text => text) csv_store_text [])).
Proof.
  apply (X8_addStore_first_registration_wins string (fun text => text)
           csv_store_text "function CSVDataStore() { }" []).
  vm_compute. reflexivity.
Defined.

(** *** Column metadata *)

(** X9: describing a column whose name is not that of a member of
    Object.prototype ([__proto__] among them) merges the new metadata into
    what the store holds for it: an index is kept unless a new one is
    given; the other columns and the table are left alone. *)
Theorem X9_describeColumn_merges :
  forall store name columnMeta,
    inherited name = false ->
    let store' := describeColumn name columnMeta store in
    table store' = table store
    /\ (exists merged,
          whatIs name store' = Some merged
          /\ index merged
             = match index columnMeta, whatIs name store with
               | Some i, _ => Some i
               | None, Some old => index old
               | None, None => None
               end)
    /\ forall other,
         other <> name -> whatIs other store' = whatIs other store.
Proof.
  intros store name columnMeta _ store'.
  split; [reflexivity|]. split.
  - eexists. split; [apply get_set_same|].
    unfold whatIs. cbn [merge index].
    destruct (index columnMeta); [reflexivity|].
    now destruct (get name (columns store)).
  - intros other Hother. unfold whatIs, store', describeColumn.
    cbn [columns]. rewrite get_set.
    destruct (String.eqb other name) eqn:E; [|reflexivity].
    apply String.eqb_eq in E. contradiction.
Qed.

Lemma X9_describeColumn_merges_witness :
  whatIs "b"
    (describeColumn "a" (mkMeta None [("title", "A")])
       (describeColumn "b" (mkMeta (Some 2%nat) []) (create None None)))
  = whatIs "b"
      (describeColumn "b" (mkMeta (Some 2%nat) []) (create None None)).
Proof.
  refine (proj2 (proj2 (X9_describeColumn_merges
                          (describeColumn "b" (mkMeta (Some 2%nat) [])
                             (create None None))
                          "a" (mkMeta None [("title", "A")]) _))
            "b" _);
    [reflexivity | discriminate].
Defined.

End StoreMore.

(* ===================================================================== *)
(** * The order of the columns of a store                                 *)
(* ===================================================================== *)

Section StoreOrder.

Import DataStore Spec Samples.

Lemma length_assign {A : Type} (hole v : A) i : forall a,
  List.length (assign hole i v a) = Nat.max (List.length a) (S i).
Proof.
  induction i as [|i IH]; intros [|x a]; simpl; try reflexivity.
  - f_equal. lia.
  - specialize (IH []). simpl in IH. now rewrite IH.
  - now rewrite IH.
Qed.

Lemma nth_error_assign_same {A : Type} (hole v : A) i : forall a,
  nth_error (assign hole i v a) i = Some v.
Proof.
  induction i as [|i IH]; intros [|x a]; simpl; try reflexivity; apply IH.
Qed.

Lemma nth_error_assign_other {A : Type} (hole v : A) i : forall a j,
  j <> i -> (j < List.length a)%nat ->
  nth_error (assign hole i v a) j = nth_error a j.
Proof.
  induction i as [|i IH]; intros [|x a] j Hj Hlt; simpl in Hlt; try lia;
    destruct j as [|j]; simpl; try reflexivity; try congruence.
  apply IH; [congruence | lia].
Qed.

Lemma getColumnOrder_without_index :
  forall store,
    (forall name meta,
        get name (columns store) = Some meta -> index meta = None) ->
    getColumnOrder store = map Some (keys (columns store)).
Proof.
  intros store Hnone. unfold getColumnOrder.
  assert (H : forall names (a : list (option string)),
             (forall name, In name names -> In name (keys (columns store))) ->
             fold_left
               (fun columnOrder (ic : nat * string) =>
                  let (i, columnName) := ic in
                  let meta :=
                    U.pick (get columnName (columns store)) (mkMeta None []) in
                  assign None (U.pick (index meta) i) (Some columnName)
                    columnOrder)
               (combine (seq (List.length a) (List.length names)) names) a
             = (a ++ map Some names)%list).
  { induction names as [|name names IH]; intros a Hin.
    - simpl. now rewrite app_nil_r.
    - cbn [List.length seq combine fold_left map].
      destruct (get_of_key name (columns store)) as [meta Hmeta];
        [apply Hin; now left|].
      rewrite Hmeta. cbn [U.pick]. rewrite (Hnone _ _ Hmeta). cbn [U.pick].
      rewrite assign_at_end.
      replace (S (List.length a))
        with (List.length (a ++ [Some name])%list)
        by (rewrite length_app; simpl; lia).
      rewrite IH by (intros x Hx; apply Hin; now right).
      now rewrite <- app_assoc. }
  apply (H (keys (columns store)) []). auto.
Qed.

(** X10: when no column has an index, the order of the columns is the
    order in which the store came to know them. *)
Theorem X10_getColumnOrder_defaults_to_discovery :
  forall store,
    (forall name meta,
        get name (columns store) = Some meta -> index meta = None) ->
    getColumnOrder store = map Some (keys (columns store)).
Proof. exact getColumnOrder_without_index. Qed.

Lemma X10_getColumnOrder_defaults_to_discovery_witness :
  getColumnOrder
    (describeColumn "b" (mkMeta None [("title", "B")])
       (describeColumn "a" (mkMeta None []) (create None None)))
  = [Some "a"; Some "b"].
Proof.
  apply (X10_getColumnOrder_defaults_to_discovery
           (describeColumn "b" (mkMeta None [("title", "B")])
              (describeColumn "a" (mkMeta None []) (create None None)))).
  intros name meta. cbn.
  destruct (String.eqb name "a"); [intro H; now injection H as <-|].
  destruct (String.eqb name "b"); [intro H; now injection H as <-|].
  discriminate.
Defined.

(** *** Describing several columns *)

Lemma In_add_key x k ks : In x (add_key k ks) <-> x = k \/ In x ks.
Proof.
  unfold add_key. split.
  - intro H. apply In_keys_has in H. apply has_get in H.
    destruct H as [v H]. rewrite get_set in H.
    destruct (String.eqb x k) eqn:E.
    + left. now apply String.eqb_eq.
    + right. rewrite <- (keys_unit ks). apply has_In_keys. apply has_get.
      now exists v.
  - intro H. apply has_In_keys. apply has_get. rewrite get_set.
    destruct (String.eqb x k) eqn:E; [now exists tt|].
    destruct H as [-> | H]; [now rewrite String.eqb_refl in E|].
    apply has_get. apply In_keys_has. now rewrite keys_unit.
Qed.

Lemma In_add_keys names : forall x ks,
  In x (add_keys names ks) <-> In x names \/ In x ks.
Proof.
  induction names as [|k names IH]; intros x ks.
  - simpl. tauto.
  - unfold add_keys. cbn [fold_left]. fold (add_keys names (add_key k ks)).
    rewrite IH, In_add_key. simpl. intuition congruence.
Qed.

(** Describing, one after the other, columns that the store does not know
    and that are all different. *)
Lemma describe_fresh_columns (l : object MetaColumn) : forall store,
  NoDup (keys l) ->
  (forall k, In k (keys l) -> get k (columns store) = None) ->
  let store' :=
    fold_left (fun store kc => describeColumn (fst kc) (snd kc) store)
      l store in
  keys (columns store') = add_keys (keys l) (keys (columns store))
  /\ forall k,
       get k (columns store')
       = match get k l with
         | Some meta => Some (merge (mkMeta None []) meta)
         | None => get k (columns store)
         end.
Proof.
  induction l as [|[k0 m0] l IH]; intros store Hnd Hfree.
  - split; reflexivity.
  - inversion Hnd as [|? ? Hnot Hnd']. subst.
    cbn [fold_left fst snd].
    set (store1 := describeColumn k0 m0 store).
    assert (Hcols : columns store1
                    = set k0 (merge (mkMeta None []) m0) (columns store)).
    { unfold store1, describeColumn. cbn [columns].
      rewrite (Hfree k0) by now left. reflexivity. }
    destruct (IH store1 Hnd') as [Hkeys Hget].
    { intros k Hk. rewrite Hcols, get_set.
      destruct (String.eqb k k0) eqn:E.
      - apply String.eqb_eq in E. subst k. contradiction.
      - apply Hfree. now right. }
    split.
    + rewrite Hkeys, Hcols, keys_set. reflexivity.
    + intro k. rewrite Hget, Hcols, get_set. simpl.
      destruct (String.eqb k k0) eqn:E; [|reflexivity].
      apply String.eqb_eq in E. subst k. now rewrite (get_not_In k0 l Hnot).
Qed.

Lemma keys_rev {V : Type} (o : object V) : keys (List.rev o) = List.rev (keys o).
Proof. unfold keys. apply map_rev. Qed.

Lemma get_rev_NoDup {V : Type} (o : object V) k :
  NoDup (keys o) -> get k (List.rev o) = get k o.
Proof.
  induction o as [|[k0 v0] o IH]; intro Hnd; [reflexivity|].
  inversion Hnd as [|? ? Hnot Hnd']. subst.
  cbn [List.rev]. rewrite (get_app k v0). rewrite (IH Hnd'). simpl.
  destruct (String.eqb k k0) eqn:E; [|now destruct (get k o)].
  apply String.eqb_eq in E. subst k. now rewrite (get_not_In k0 o Hnot).
Qed.

(** X12: describeColumns takes the columns from the last to the first: a
    store without metadata comes to know columns with plain names, none of
    them [__proto__], in the reverse of their order, and that reverse is
    their order in the store when none has an index. *)
Theorem X12_describeColumns_reverses_discovery :
  forall t cols,
    NoDup (keys cols) ->
    plain_keys (keys cols) ->
    ~ In "__proto__" (keys cols) ->
    (forall name meta, get name cols = Some meta -> index meta = None) ->
    let store := describeColumns cols (mkStore t []) in
    keys (columns store) = List.rev (keys cols)
    /\ getColumnOrder store = map Some (List.rev (keys cols))
    /\ forall name meta,
         get name cols = Some meta ->
         whatIs name store = Some (merge (mkMeta None []) meta).
Proof.
  intros t cols Hnd Hplain _ Hnone store.
  assert (Hndr : NoDup (keys (List.rev cols)))
    by (rewrite keys_rev; now apply NoDup_rev).
  destruct (describe_fresh_columns (List.rev cols) (mkStore t []) Hndr)
    as [Hkeys Hget]; [reflexivity|].
  fold (describeColumns cols (mkStore t [])) in Hkeys, Hget. fold store in Hkeys, Hget.
  assert (Hk : keys (columns store) = List.rev (keys cols)).
  { rewrite Hkeys, keys_rev. cbn [columns keys map].
    apply (add_keys_plain (List.rev (keys cols)) []).
    - apply Forall_rev. exact Hplain.
    - now apply NoDup_rev.
    - intros k _ []. }
  split; [exact Hk|]. split.
  - rewrite <- Hk. apply getColumnOrder_without_index.
    intros name meta. rewrite Hget, get_rev_NoDup by exact Hnd.
    destruct (get name cols) as [m|] eqn:Hm; [|discriminate].
    intro H. injection H as <-. cbn [merge index].
    now rewrite (Hnone _ _ Hm).
  - intros name meta Hm. unfold whatIs.
    now rewrite Hget, get_rev_NoDup, Hm by exact Hnd.
Qed.


Lemma X12_describeColumns_reverses_discovery_witness :
  getColumnOrder
    (describeColumns
       [("a", mkMeta None []); ("b", mkMeta None [("title", "B")])]
       (create None None))
  = [Some "b"; Some "a"].
Proof.
  apply (X12_describeColumns_reverses_discovery Table.empty
           [("a", mkMeta None []); ("b", mkMeta None [("title", "B")])]).
  - repeat constructor; simpl; intuition discriminate.
  - repeat constructor.
  - simpl. intuition discriminate.
  - intros name meta. cbn.
    destruct (String.eqb name "a"); [intro H; now injection H as <-|].
    destruct (String.eqb name "b"); [intro H; now injection H as <-|].
    discriminate.
Defined.

(** *** Setting the order *)

Lemma fold_left_map {A B C : Type} (f : A -> B -> A) (g : C -> B) l :
  forall a, fold_left f (map g l) a = fold_left (fun a x => f a (g x)) l a.
Proof. induction l as [|x l IH]; intro a; simpl; [reflexivity | apply IH]. Qed.

(** The metadata that setColumnOrder gives: each name with its position. *)
Lemma order_entries names : forall s,
  let l := map (fun ic : nat * string => (snd ic, mkMeta (Some (fst ic)) []))
             (combine (seq s (List.length names)) names) in
  keys l = names
  /\ (NoDup names ->
      forall j k, nth_error names j = Some k ->
                  get k l = Some (mkMeta (Some (s + j)%nat) [])).
Proof.
  induction names as [|x names IH]; intro s; cbn zeta.
  - split; [reflexivity|]. intros _ [|j] k H; discriminate.
  - destruct (IH (S s)) as [Hkeys Hget].
    cbn [List.length seq combine map keys fst snd]. split.
    + f_equal. exact Hkeys.
    + intros Hnd j k Hj. inversion Hnd as [|? ? Hnot Hnd']. subst.
      destruct j as [|j]; cbn [nth_error] in Hj.
      * injection Hj as ->. cbn [get]. rewrite String.eqb_refl.
        now rewrite Nat.add_0_r.
      * cbn [get].
        destruct (String.eqb k x) eqn:E.
        -- apply String.eqb_eq in E. subst k. exfalso. apply Hnot.
           eapply nth_error_In. exact Hj.
        -- rewrite (Hget Hnd' j k Hj). f_equal. f_equal. f_equal. lia.
Qed.

(** The columns of a store without metadata after setColumnOrder. *)
Lemma setColumnOrder_columns t names :
  NoDup names ->
  let cols := columns (setColumnOrder names (mkStore t [])) in
  (forall k, In k (keys cols) <-> In k names)
  /\ forall j k, nth_error names j = Some k ->
                 get k cols = Some (mkMeta (Some j) []).
Proof.
  intros Hnd cols.
  destruct (order_entries names 0) as [Hkeys Hget].
  set (l := map (fun ic : nat * string =>
                   (snd ic, mkMeta (Some (fst ic)) []))
              (combine (seq 0 (List.length names)) names)) in *.
  assert (Hfold : setColumnOrder names (mkStore t [])
                  = fold_left
                      (fun store kc => describeColumn (fst kc) (snd kc) store)
                      l (mkStore t [])).
  { unfold setColumnOrder, l. now rewrite fold_left_map. }
  destruct (describe_fresh_columns l (mkStore t [])) as [Hk Hg];
    [now rewrite Hkeys | reflexivity |].
  rewrite <- Hfold in Hk, Hg. fold cols in Hk, Hg. split.
  - intro k. rewrite Hk, Hkeys, In_add_keys. simpl. tauto.
  - intros j k Hj. rewrite Hg, (Hget Hnd j k Hj). reflexivity.
Qed.

Lemma getColumnOrder_after_setColumnOrder t names :
  NoDup names ->
  getColumnOrder (setColumnOrder names (mkStore t [])) = map Some names.
Proof.
  intro Hnd.
  destruct (setColumnOrder_columns t names Hnd) as [Hin Hget].
  unfold getColumnOrder.
  set (cols := columns (setColumnOrder names (mkStore t []))) in *.
  set (step := fun (columnOrder : list (option string)) (ic : nat * string) =>
                 let (i, columnName) := ic in
                 let meta := U.pick (get columnName cols) (mkMeta None []) in
                 assign None (U.pick (index meta) i) (Some columnName)
                   columnOrder).
  assert (H : forall ks s a done,
             (forall k, In k ks -> In k names) ->
             (forall j k, nth_error names j = Some k -> In k done ->
                          nth_error a j = Some (Some k)) ->
             (List.length a <= List.length names)%nat ->
             let a' := fold_left step (combine (seq s (List.length ks)) ks) a in
             (forall j k, nth_error names j = Some k -> In k (done ++ ks) ->
                          nth_error a' j = Some (Some k))
             /\ (List.length a' <= List.length names)%nat).
  { induction ks as [|k0 ks IH]; intros s a done Hks Hdone Hlen; cbn zeta.
    - rewrite app_nil_r. split; assumption.
    - cbn [List.length seq combine fold_left].
      destruct (In_nth_error names k0 (Hks k0 (or_introl eq_refl)))
        as [j0 Hj0].
      assert (Hstep : step a (s, k0) = assign None j0 (Some k0) a).
      { unfold step. now rewrite (Hget j0 k0 Hj0). }
      rewrite Hstep.
      assert (Hj0lt : (j0 < List.length names)%nat)
        by (apply nth_error_Some; congruence).
      replace (done ++ k0 :: ks)%list with ((done ++ [k0]) ++ ks)%list
        by (now rewrite <- app_assoc).
      apply IH.
      + intros k Hk. apply Hks. now right.
      + intros j k Hj Hk.
        destruct (Nat.eq_dec j j0) as [-> | Hne].
        * rewrite Hj0 in Hj. injection Hj as <-. apply nth_error_assign_same.
        * apply in_app_or in Hk. destruct Hk as [Hk | [<- | []]].
          -- rewrite nth_error_assign_other; [now apply Hdone | exact Hne |].
             apply nth_error_Some. rewrite (Hdone j k Hj Hk). discriminate.
          -- exfalso. apply Hne. rewrite NoDup_nth_error in Hnd.
             apply Hnd; [|congruence]. apply nth_error_Some. congruence.
      + rewrite length_assign. lia. }
  destruct (H (keys cols) 0%nat [] []) as [Hall Hlen].
  { intros k Hk. now apply Hin. }
  { intros j k _ []. }
  { simpl. lia. }
  cbn zeta in Hall, Hlen. cbn [app] in Hall.
  apply nth_error_ext. intro j. rewrite nth_error_map.
  destruct (nth_error names j) as [k|] eqn:Hj; cbn [option_map].
  - apply Hall; [exact Hj|]. apply Hin. eapply nth_error_In. exact Hj.
  - apply nth_error_None. apply nth_error_None in Hj. lia.
Qed.

(** X11: on a store without metadata, setColumnOrder and getColumnOrder are
    inverse to each other: the order read back is the list of names that
    was set, array indices among them or not, provided the names are all
    different and none is [__proto__]. *)
Theorem X11_setColumnOrder_then_getColumnOrder :
  forall t names,
    NoDup names ->
    ~ In "__proto__" names ->
    getColumnOrder (setColumnOrder names (mkStore t [])) = map Some names.
Proof.
  intros t names Hnd _. now apply getColumnOrder_after_setColumnOrder.
Qed.

Lemma X11_setColumnOrder_then_getColumnOrder_witness :
  getColumnOrder (setColumnOrder ["b"; "0"; "a"] (create None None))
  = [Some "b"; Some "0"; Some "a"].
Proof.
  apply (X11_setColumnOrder_then_getColumnOrder Table.empty ["b"; "0"; "a"]).
  - repeat constructor; simpl; intuition discriminate.
  - simpl. intuition discriminate.
Defined.

End StoreOrder.

(* ===================================================================== *)
(** * Columns of a table and their export                                 *)
(* ===================================================================== *)

Section ColumnsMore.

Import DataParser DataStore Spec Samples.

Lemma Permutation_sort_insert {A : Type} (cmp : A -> A -> Z) x l :
  Permutation (sort_insert cmp x l) (x :: l).
Proof.
  induction l as [|y l IH]; simpl; [apply Permutation_refl|].
  destruct (0 <? cmp x y); [|apply Permutation_refl].
  apply perm_trans with (y :: x :: l);
    [now apply perm_skip | apply perm_swap].
Qed.

(** Sorting rearranges: nothing is lost, added or repeated. *)
Lemma Permutation_Array_sort {A : Type} (cmp : A -> A -> Z) l :
  Permutation (Array_sort cmp l) l.
Proof.
  induction l as [|x l IH]; simpl; [apply perm_nil|].
  apply perm_trans with (x :: Array_sort cmp l);
    [apply Permutation_sort_insert | now apply perm_skip].
Qed.

(** The names of the record of columns are those that the scan meets. *)
Lemma In_keys_columnsObject t k :
  In k (keys (columnsObject t)) <-> present k (Table.rows t) = true.
Proof.
  pose proof (columnsObject_scanned t k) as H. split.
  - intro Hin. apply get_of_key in Hin. destruct Hin as [col Hcol].
    rewrite Hcol in H. destruct (present k (Table.rows t)); congruence.
  - intro Hp. rewrite Hp in H. apply has_In_keys. apply has_get.
    eexists. exact H.
Qed.

Lemma present_cases k rows :
  present k rows = true <->
  k = "id" \/ exists row, In row rows /\ In k (Row.getCellNames row).
Proof.
  unfold present. rewrite orb_true_iff, existsb_exists. split.
  - intros [H | (row & Hrow & Hhas)].
    + left. now apply String.eqb_eq.
    + right. exists row. split; [exact Hrow | now apply has_In_keys].
  - intros [-> | (row & Hrow & Hin)].
    + now left.
    + right. exists row. split; [exact Hrow | now apply In_keys_has].
Qed.

(** Without array indices among the cell names, [id] is the first name. *)
Lemma keys_plain_table t :
  plain_cell_names t ->
  exists strs,
    keys (columnsObject t) = "id" :: strs /\ ~ In "id" strs.
Proof.
  intro Hplain.
  destruct (columnsObject_keys_in_order t)
    as (ints & strs & Hkeys & Hasc & _ & Hnd).
  inversion Hnd as [|? ? Hnot _]. subst.
  destruct ints as [|k ints].
  - exists strs. now split.
  - exfalso. destruct Hasc as (n & Hk & _).
    assert (Hin : In k (keys (columnsObject t)))
      by (rewrite Hkeys; now left).
    apply In_keys_columnsObject, present_cases in Hin.
    destruct Hin as [-> | (row & Hrow & Hname)]; [discriminate|].
    rewrite (Hplain row k Hrow Hname) in Hk. discriminate.
Qed.

(** With an array index among the cell names, an array index is the first
    name and [id] comes later. *)
Lemma keys_indexed_table t row name n :
  In row (Table.getAllRows t) -> In name (Row.getCellNames row) ->
  array_index name = Some n ->
  exists first m rest,
    keys (columnsObject t) = first :: rest
    /\ array_index first = Some m /\ (m <= n)%N
    /\ In "id" rest /\ ~ In first rest.
Proof.
  intros Hrow Hname Hn.
  pose proof (keys_in_order_NoDup _ (columnsObject_keys_in_order t)) as Hnodup.
  destruct (columnsObject_keys_in_order t)
    as (ints & strs & Hkeys & Hasc & Hplain & Hnd).
  assert (Hin : In name (keys (columnsObject t))).
  { apply In_keys_columnsObject, present_cases. right. now exists row. }
  rewrite Hkeys in Hin, Hnodup.
  assert (Hints : In name ints).
  { apply in_app_or in Hin. destruct Hin as [Hin | [<- | Hin]];
      [exact Hin | discriminate |].
    now elim (index_not_plain strs name n). }
  destruct ints as [|k ints]; [destruct Hints|].
  destruct Hasc as (m & Hk & _ & Hasc).
  exists k, m, (ints ++ "id" :: strs)%list.
  split; [exact Hkeys|]. split; [exact Hk|]. split.
  - destruct Hints as [-> | Hints]; [rewrite Hk in Hn; injection Hn; lia|].
    destruct (ascending_from_In _ _ _ Hasc Hints) as (n' & Hn' & Hle).
    rewrite Hn in Hn'. injection Hn' as <-. lia.
  - split; [apply in_or_app; right; now left | now inversion Hnodup].
Qed.

Lemma export_names includeIdColumn store :
  Permutation (fst (getColumnsForExport includeIdColumn store))
    (if includeIdColumn then keys (toColumns (table store))
     else tl (keys (toColumns (table store)))).
Proof.
  unfold getColumnsForExport. cbn [fst].
  destruct (List.rev (getColumnOrder store));
    [apply Permutation_refl | apply Permutation_Array_sort].
Qed.

Lemma In_tl {A : Type} (x : A) l : In x (tl l) -> In x l.
Proof. destruct l; simpl; tauto. Qed.

(** X13: whatever the store, the export gives the names of the columns of
    the table, each once (all of them, or all but the first), and for each
    name, at the same position, the column of that name, which has one
    entry per row. *)
Theorem X13_export_is_aligned :
  forall includeIdColumn store,
    let rows := Table.getAllRows (table store) in
    let (columnNames, columnValues) :=
      getColumnsForExport includeIdColumn store in
    Permutation columnNames
      (if includeIdColumn then keys (toColumns (table store))
       else tl (keys (toColumns (table store))))
    /\ columnValues = map (fun name => map (cell_at name) rows) columnNames
    /\ Forall (fun col => List.length col = List.length rows) columnValues.
Proof.
  intros flag store rows.
  pose proof (export_names flag store) as Hperm.
  destruct (getColumnsForExport flag store) as [names values] eqn:E.
  cbn [fst] in Hperm.
  assert (Hvalues : values = map (column (toColumns (table store))) names).
  { unfold getColumnsForExport in E. now injection E as <- <-. }
  assert (Hcols : values = map (fun name => map (cell_at name) rows) names).
  { rewrite Hvalues. apply map_ext_in. intros name Hname.
    apply column_of_key.
    apply (Permutation_in _ Hperm) in Hname.
    destruct flag; [exact Hname | now apply In_tl]. }
  split; [exact Hperm|]. split; [exact Hcols|].
  rewrite Hcols. apply Forall_forall. intros col Hcol.
  apply in_map_iff in Hcol. destruct Hcol as (name & <- & _).
  apply length_map.
Qed.

(** X14: when no cell name is an array index, the export without the id
    column names exactly the cells of the rows, [id] left out. *)
Theorem X14_export_without_id :
  forall store,
    plain_cell_names (table store) ->
    let columnNames := fst (getColumnsForExport false store) in
    ~ In "id" columnNames
    /\ forall name,
         In name columnNames <->
         name <> "id"
         /\ exists row,
              In row (Table.getAllRows (table store))
              /\ In name (Row.getCellNames row).
Proof.
  intros store Hplain names.
  destruct (keys_plain_table _ Hplain) as (strs & Hkeys & Hnot).
  pose proof (export_names false store) as Hperm. fold names in Hperm.
  unfold toColumns in Hperm. rewrite Hkeys in Hperm. cbn [tl] in Hperm.
  assert (Hiff : forall name, In name names <-> In name strs).
  { intro name. split; apply Permutation_in;
      [exact Hperm | now apply Permutation_sym]. }
  split; [now rewrite Hiff|].
  intro name. rewrite Hiff. split.
  - intro Hin. split; [intros ->; contradiction|].
    assert (Hk : In name (keys (columnsObject (table store))))
      by (rewrite Hkeys; now right).
    apply In_keys_columnsObject, present_cases in Hk.
    destruct Hk as [-> | Hk]; [contradiction | exact Hk].
  - intros [Hne Hrow].
    assert (Hk : In name (keys (columnsObject (table store))))
      by (apply In_keys_columnsObject, present_cases; now right).
    rewrite Hkeys in Hk. destruct Hk as [<- | Hk]; [now contradiction Hne | exact Hk].
Qed.

Lemma X14_export_without_id_witness :
  ~ In "id" (fst (getColumnsForExport false
                    (create (Some sample_table) None))).
Proof.
  refine (proj1 (X14_export_without_id (create (Some sample_table) None) _)).
  intros row name [<- | [<- | []]] Hname; simpl in Hname;
    repeat (destruct Hname as [<- | Hname]; [reflexivity|]);
    destruct Hname.
Defined.

(** X15: when a cell name of the table is an array index, the first
    column that getColumnsFromTable returns is not the id column but the
    column of the smallest array index among the cell names; the id column
    comes later.  (No cell has the name of a member of Object.prototype.) *)
Theorem X15_index_column_first :
  forall t row name n,
    ordinary_cell_names t ->
    In row (Table.getAllRows t) ->
    In name (Row.getCellNames row) ->
    array_index name = Some n ->
    exists first m others,
      array_index first = Some m /\ (m <= n)%N
      /\ getColumnsFromTable t false
         = map (cell_at first) (Table.getAllRows t) :: others
      /\ In (map (cell_at "id") (Table.getAllRows t)) others.
Proof.
  intros t row name n _ Hrow Hname Hn.
  destruct (keys_indexed_table _ row name n Hrow Hname Hn)
    as (first & m & rest & Hkeys & Hfirst & Hle & Hid & _).
  exists first, m, (map (column (columnsObject t)) rest).
  split; [exact Hfirst|]. split; [exact Hle|].
  unfold getColumnsFromTable. rewrite Hkeys. cbn [map]. split.
  - f_equal. apply column_of_key. rewrite Hkeys. now left.
  - apply in_map_iff. exists "id". split; [|exact Hid].
    apply column_of_key. rewrite Hkeys. now right.
Qed.

Lemma X15_index_column_first_witness :
  exists first m others,
    array_index first = Some m /\ (m <= 0)%N
    /\ getColumnsFromTable indexed_table false
       = map (cell_at first) (Table.getAllRows indexed_table) :: others
    /\ In (map (cell_at "id") (Table.getAllRows indexed_table)) others.
Proof.
  apply (X15_index_column_first indexed_table
           (mkRow "r1" [("0", CNumber 3); ("x", CNumber 4)]) "0" 0%N).
  - intros row name [<- | [<- | []]] Hname; simpl in Hname;
      repeat (destruct Hname as [<- | Hname]; [reflexivity|]);
      destruct Hname.
  - right. left. reflexivity.
  - left. reflexivity.
  - reflexivity.
Defined.

(** X16: when no cell name is an array index, the first column that
    getColumnsFromTable returns is the id column. *)
Theorem X16_id_column_first :
  forall t,
    plain_cell_names t ->
    exists others,
      getColumnsFromTable t false
      = map (cell_at "id") (Table.getAllRows t) :: others.
Proof.
  intros t Hplain.
  destruct (keys_plain_table _ Hplain) as (strs & Hkeys & _).
  unfold getColumnsFromTable. rewrite Hkeys. cbn [map].
  eexists. f_equal. apply column_of_key. rewrite Hkeys. now left.
Qed.

Lemma X16_id_column_first_witness :
  exists others,
    getColumnsFromTable sample_table false
    = map (cell_at "id") (Table.getAllRows sample_table) :: others.
Proof.
  apply (X16_id_column_first sample_table).
  intros row name [<- | [<- | []]] Hname; simpl in Hname;
    repeat (destruct Hname as [<- | Hname]; [reflexivity|]);
    destruct Hname.
Defined.

(** X17: the presentation order only rearranges the columns that
    getColumnsFromTable returns. *)
Theorem X17_presentation_order_rearranges :
  forall t,
    Permutation (getColumnsFromTable t true) (getColumnsFromTable t false).
Proof.
  intro t. unfold getColumnsFromTable.
  apply Permutation_map. apply Permutation_Array_sort.
Qed.

(** *** Series options from a table *)

Lemma get_fold_cells row names : forall (o : object CellType) k,
  get k (fold_left
           (fun pointOptions cellName =>
              set cellName (Row.getCell row cellName) pointOptions)
           names o)
  = if existsb (String.eqb k) names then Some (Row.getCell row k)
    else get k o.
Proof.
  induction names as [|name names IH]; intros o k; [reflexivity|].
  cbn [fold_left existsb]. rewrite IH, get_set.
  destruct (String.eqb k name) eqn:E.
  - apply String.eqb_eq in E. subst k.
    now destruct (existsb (String.eqb name) names).
  - reflexivity.
Qed.

(** X18: of a table without a cell named [__proto__],
    getSeriesOptionsFromTable gives one structured point per row, in the
    order of the rows; a point has the cells of its row as fields and an
    [id] field, which is the row identifier unless the row has a cell named
    [id]. *)
Theorem X18_series_options_mirror_rows :
  forall t,
    (forall row, In row (Table.getAllRows t) ->
                 ~ In "__proto__" (Row.getCellNames row)) ->
    exists points,
      getSeriesOptionsFromTable t = mkSeries None (Some (map PObject points))
      /\ List.length points = Table.getRowCount t
      /\ forall i row,
           nth_error (Table.getAllRows t) i = Some row ->
           exists point,
             nth_error points i = Some point
             /\ get "id" point = Some (cell_at "id" row)
             /\ forall name,
                  name <> "id" ->
                  get name point = get name (Row.cells row).
Proof.
  intros t _. unfold getSeriesOptionsFromTable.
  rewrite <- (map_map _ PObject).
  eexists. split; [reflexivity|]. split; [apply length_map|].
  intros i row Hrow. rewrite nth_error_map, Hrow. cbn [option_map].
  eexists. split; [reflexivity|]. split.
  - rewrite get_fold_cells. unfold Row.getCellNames.
    rewrite <- has_keys. unfold cell_at, Row.getCell, has.
    now destruct (get "id" (Row.cells row)).
  - intros name Hne. rewrite get_fold_cells. unfold Row.getCellNames.
    rewrite <- has_keys. unfold Row.getCell, has.
    destruct (get name (Row.cells row)); [reflexivity|].
    cbn. apply String.eqb_neq in Hne. now rewrite Hne.
Qed.

Lemma X18_series_options_mirror_rows_witness :
  exists points,
    getSeriesOptionsFromTable sample_table
    = mkSeries None (Some (map PObject points))
    /\ List.length points = Table.getRowCount sample_table
    /\ forall i row,
         nth_error (Table.getAllRows sample_table) i = Some row ->
         exists point,
           nth_error points i = Some point
           /\ get "id" point = Some (cell_at "id" row)
           /\ forall name,
                name <> "id" ->
                get name point = get name (Row.cells row).
Proof.
  apply (X18_series_options_mirror_rows sample_table).
  intros row [<- | [<- | []]]; simpl; intuition discriminate.
Defined.

End ColumnsMore.

(* ===================================================================== *)
(** * Tables built without headers and from series options               *)
(* ===================================================================== *)

Section TablesMore.

Import DataParser Spec Samples.

(** *** Generated header names *)

Lemma fill_headers_spec missing : forall headers ks,
  fill_headers missing headers ks
  = ((headers ++ map (U.key_of (U.hash ks)) (seq (U.counter ks) missing))%list,
     U.mkKeys (U.hash ks) (U.counter ks + missing)).
Proof.
  induction missing as [|m IH]; intros headers ks.
  - simpl. unfold U.ret. rewrite app_nil_r, Nat.add_0_r. now destruct ks.
  - cbn [fill_headers]. unfold U.bind, U.uniqueKey. rewrite IH.
    cbn [U.hash U.counter seq map]. rewrite <- app_assoc.
    f_equal. f_equal. lia.
Qed.

Lemma NoDup_generated h c n : NoDup (map (U.key_of h) (seq c n)).
Proof.
  revert c. induction n as [|n IH]; intro c; [constructor|].
  cbn [seq map]. constructor; [|apply IH].
  intro Hin. apply in_map_iff in Hin. destruct Hin as (m & E & Hm).
  apply key_of_inj in E. apply in_seq in Hm. lia.
Qed.

(** The rows of the table for any headers: the missing ones are drawn
    first, the row identifiers after them. *)
Lemma getTableFromColumns_rows_filled first rest headers ks :
  let columns := first :: rest in
  let missing := (List.length columns - List.length headers)%nat in
  let filled :=
    (headers ++ map (U.key_of (U.hash ks)) (seq (U.counter ks) missing))%list in
  getTableFromColumns columns headers ks
  = (mkTable
       (built_rows columns filled (U.hash ks) (U.counter ks + missing)
          (seq 0 (List.length first)))
       (Table.columnOrder (Table.setColumnOrder filled Table.empty)),
     U.mkKeys (U.hash ks)
       (U.counter ks + missing + List.length first)).
Proof.
  intros columns missing filled. unfold getTableFromColumns.
  fold columns. fold missing. unfold U.bind at 1.
  rewrite fill_headers_spec. fold filled. unfold columns at 1.
  rewrite build_rows_spec; [|intros r []].
  cbn [U.hash U.counter Table.rows app]. now rewrite length_seq.
Qed.

(** X19: without headers, getTableFromColumns names the columns with
    generated keys, drawn in the order of the columns, and then draws the
    identifiers of the rows; a row holds, under the key of each column, the
    entry of that column at the index of the row. *)
Theorem X19_columns_without_headers :
  forall first rest ks,
    let columns := first :: rest in
    let n := List.length columns in
    let h := U.hash ks in
    let c := U.counter ks in
    let result := getTableFromColumns columns [] ks in
    Table.getRowCount (fst result) = List.length first
    /\ snd result = U.mkKeys h (c + n + List.length first)
    /\ forall i j,
         (i < List.length first)%nat -> (j < n)%nat ->
         exists row,
           nth_error (Table.getAllRows (fst result)) i = Some row
           /\ Row.id row = U.key_of h (c + n + i)
           /\ Row.getCell row (U.key_of h (c + j))
              = nth i (nth j columns []) CUndefined.
Proof.
  intros first rest ks columns n h c result.
  pose proof (getTableFromColumns_rows_filled first rest [] ks) as H.
  cbn zeta in H. fold columns in H. fold result in H.
  cbn [List.length app] in H. rewrite Nat.sub_0_r in H.
  fold n h c in H. rewrite H. cbn [fst snd].
  unfold Table.getRowCount, Table.getAllRows. cbn [Table.rows].
  set (hs := map (U.key_of h) (seq c n)).
  assert (Hlen : List.length hs = List.length columns)
    by (unfold hs; now rewrite length_map, length_seq).
  assert (Hnd : NoDup hs) by apply NoDup_generated.
  split; [now rewrite built_rows_length, length_seq|].
  split; [reflexivity|].
  intros i j Hi Hj.
  rewrite nth_error_built_rows, (nth_error_nth' _ 0%nat)
    by (now rewrite length_seq).
  rewrite seq_nth by exact Hi. cbn [option_map Nat.add].
  eexists. split; [reflexivity|]. split; [apply row_of_columns_id|].
  rewrite row_of_columns_cells by assumption.
  unfold Row.getCell. cbn [Row.cells].
  rewrite cells_of_columns_get by (now rewrite keys_combine).
  assert (Hj' : U.key_of h (c + j) = nth j hs "").
  { unfold hs. rewrite (nth_indep _ "" (U.key_of h 0%nat))
      by (now rewrite length_map, length_seq).
    rewrite map_nth, seq_nth by exact Hj. reflexivity. }
  rewrite Hj', get_combine_nth by assumption. reflexivity.
Qed.

(** *** Points to rows *)

Lemma add_point_cells pointArrayMap table i point :
  add_point pointArrayMap table (i, point)
  = (fun ks =>
       let (row, ks') := Row.create (point_cells pointArrayMap i point) ks in
       (Table.insertRow row table, ks')).
Proof. destruct point; reflexivity. Qed.

Lemma remove_absent {V : Type} k (o : object V) :
  get k o = None -> remove k o = o.
Proof.
  induction o as [|[k0 v0] o IH]; simpl; [reflexivity|].
  destruct (String.eqb k k0); [discriminate|].
  intro H. now rewrite IH.
Qed.

Lemma get_remove_other {V : Type} k k' (o : object V) :
  k' <> k -> get k' (remove k o) = get k' o.
Proof.
  intro Hne. induction o as [|[k0 v0] o IH]; simpl; [reflexivity|].
  destruct (String.eqb k k0) eqn:E; simpl.
  - apply String.eqb_eq in E. subst k0.
    apply String.eqb_neq in Hne. now rewrite Hne.
  - now rewrite IH.
Qed.

Lemma combine_map_fst {A B C : Type} (f : A -> B) (l : list A) :
  forall l' : list C,
    combine (map f l) l' = map (fun p => (f (fst p), snd p)) (combine l l').
Proof.
  induction l as [|x l IH]; intros [|y l']; simpl; try reflexivity.
  now rewrite IH.
Qed.

(** Points that bring no identifier become rows one after the other. *)
Lemma add_points_without_id pointArrayMap points :
  forall s table ks,
    (forall r, In r (Table.rows table) ->
               exists m, (m < U.counter ks)%nat
                         /\ Row.id r = U.key_of (U.hash ks) m) ->
    (forall i point, nth_error points i = Some point ->
                     without_id pointArrayMap (s + i) point) ->
    add_points pointArrayMap
      (combine (seq s (List.length points)) points) table ks
    = (mkTable
         (Table.rows table
            ++ map (fun ip : nat * Point =>
                      mkRow (U.key_of (U.hash ks) (U.counter ks + fst ip))
                        (remove "id"
                           (point_cells pointArrayMap (s + fst ip) (snd ip))))
                 (combine (seq 0 (List.length points)) points))
         (Table.columnOrder table),
       U.mkKeys (U.hash ks) (U.counter ks + List.length points)).
Proof.
  induction points as [|point points IH]; intros s table ks Hold Hno.
  - simpl. unfold U.ret. rewrite app_nil_r, Nat.add_0_r.
    now destruct table, ks.
  - cbn [List.length seq combine add_points]. unfold U.bind at 1.
    rewrite add_point_cells.
    assert (Hcreate : Row.create (point_cells pointArrayMap s point) ks
                      = (mkRow (U.key_of (U.hash ks) (U.counter ks))
                           (remove "id" (point_cells pointArrayMap s point)),
                         U.mkKeys (U.hash ks) (S (U.counter ks)))).
    { specialize (Hno 0%nat point eq_refl). rewrite Nat.add_0_r in Hno.
      unfold without_id in Hno. unfold Row.create.
      destruct (get "id" (point_cells pointArrayMap s point)) as [[]|];
        try reflexivity. contradiction. }
    rewrite Hcreate.
    set (row := mkRow (U.key_of (U.hash ks) (U.counter ks))
                  (remove "id" (point_cells pointArrayMap s point))).
    assert (Hins : Table.insertRow row table
                   = mkTable (Table.rows table ++ [row])
                       (Table.columnOrder table)).
    { unfold Table.insertRow.
      destruct (existsb _ (Table.rows table)) eqn:E; [|reflexivity].
      apply existsb_exists in E. destruct E as (r & Hr & E).
      apply String.eqb_eq in E. destruct (Hold r Hr) as (m & Hm & Hid).
      unfold row in E. cbn [Row.id] in E. rewrite Hid in E.
      apply key_of_inj in E. lia. }
    rewrite Hins, IH.
    + cbn [Table.rows Table.columnOrder U.hash U.counter map fst snd].
      rewrite <- app_assoc, !Nat.add_0_r. fold row.
      f_equal; [|f_equal; lia]. f_equal. f_equal.
      rewrite <- seq_shift, combine_map_fst, map_map.
      cbn [app]. f_equal.
      apply map_ext. intros [i p]. cbn [fst snd].
      f_equal; f_equal; [lia | f_equal; lia].
    + cbn [Table.rows U.hash U.counter]. intros r Hr.
      apply in_app_or in Hr. destruct Hr as [Hr | [<- | []]].
      * destruct (Hold r Hr) as (m & Hm & Hid). exists m.
        split; [lia | exact Hid].
      * exists (U.counter ks). split; [lia | reflexivity].
    + intros i p Hp. replace (S s + i)%nat with (s + S i)%nat by lia.
      apply Hno. exact Hp.
Qed.

Lemma getTableFromSeriesOptions_without_id seriesTypes so m ks :
  let names := resolve_map seriesTypes so m in
  let data := match series_data so with Some d => d | None => [] end in
  (forall i point, nth_error data i = Some point ->
                   without_id names i point) ->
  getTableFromSeriesOptions seriesTypes so m ks
  = (mkTable
       (map (fun ip : nat * Point =>
               mkRow (U.key_of (U.hash ks) (U.counter ks + fst ip))
                 (remove "id" (point_cells names (fst ip) (snd ip))))
          (combine (seq 0 (List.length data)) data))
       [],
     U.mkKeys (U.hash ks) (U.counter ks + List.length data)).
Proof.
  intros names data Hno. unfold getTableFromSeriesOptions.
  fold names. fold data.
  rewrite add_points_without_id; [reflexivity | intros r [] | exact Hno].
Qed.

Lemma nth_error_indexed {A : Type} (l : list A) i x :
  nth_error l i = Some x ->
  nth_error (combine (seq 0 (List.length l)) l) i = Some (i, x).
Proof.
  intro H.
  assert (Hi : (i < List.length l)%nat)
    by (apply nth_error_Some; now rewrite H).
  assert (Hlen : List.length (combine (seq 0 (List.length l)) l)
                 = List.length l)
    by (rewrite length_combine, length_seq; lia).
  rewrite (nth_error_nth' _ (0%nat, x)) by (now rewrite Hlen).
  rewrite combine_nth by (now rewrite length_seq).
  rewrite seq_nth by exact Hi.
  now rewrite (nth_error_nth _ _ x H).
Qed.

(** A position of a list of values written under names: the value is read
    back under its name when no later position has the same name. *)
Lemma get_fold_positions (name : nat -> string) (values : list CellType) :
  forall s (acc : object CellType) j,
    (j < List.length values)%nat ->
    (forall j', (j < j' < List.length values)%nat ->
                name (s + j')%nat <> name (s + j)%nat) ->
    get (name (s + j)%nat)
      (fold_left (fun po (jv : nat * CellType) =>
                    set (name (fst jv)) (snd jv) po)
         (combine (seq s (List.length values)) values) acc)
    = nth_error values j.
Proof.
  induction values as [|v values IH]; intros s acc j Hj Hlast;
    [simpl in Hj; lia|].
  cbn [List.length seq combine fold_left fst snd].
  destruct j as [|j].
  - cbn [nth_error]. rewrite Nat.add_0_r in *.
    assert (Hkeep : forall l t (o : object CellType),
               (forall j', (j' < List.length l)%nat ->
                           name (t + j')%nat <> name s) ->
               get (name s)
                 (fold_left (fun po (jv : nat * CellType) =>
                               set (name (fst jv)) (snd jv) po)
                    (combine (seq t (List.length l)) l) o)
               = get (name s) o).
    { induction l as [|w l IHl]; intros t o Hne; [reflexivity|].
      cbn [List.length seq combine fold_left fst snd].
      rewrite IHl.
      - rewrite get_set.
        specialize (Hne 0%nat ltac:(simpl; lia)). rewrite Nat.add_0_r in Hne.
        apply not_eq_sym in Hne.
        apply String.eqb_neq in Hne. now rewrite Hne.
      - intros j' Hj'. replace (S t + j')%nat with (t + S j')%nat by lia.
        apply Hne. simpl. lia. }
    rewrite Hkeep.
    + now rewrite get_set, String.eqb_refl.
    + intros j' Hj'. replace (S s + j')%nat with (s + S j')%nat by lia.
      apply Hlast. simpl. lia.
  - cbn [nth_error].
    replace (s + S j)%nat with (S s + j)%nat by lia.
    apply IH; [simpl in Hj; lia|].
    intros j' Hj'.
    replace (S s + j')%nat with (s + S j')%nat by lia.
    replace (S s + j)%nat with (s + S j)%nat by lia.
    apply Hlast. simpl. lia.
Qed.

(** X20: when no point brings an identifier of its own,
    getTableFromSeriesOptions gives one row per point, in the order of the
    points, and the rows take the generated keys one after the other. *)
Theorem X20_points_without_id_become_rows :
  forall seriesTypes seriesOptions pointArrayMap ks data,
    let names := resolve_map seriesTypes seriesOptions pointArrayMap in
    let result :=
      getTableFromSeriesOptions seriesTypes seriesOptions pointArrayMap ks in
    series_data seriesOptions = Some data ->
    (forall i point, nth_error data i = Some point ->
                     without_id names i point) ->
    Table.getRowCount (fst result) = List.length data
    /\ snd result
       = U.mkKeys (U.hash ks) (U.counter ks + List.length data)
    /\ forall i, (i < List.length data)%nat ->
         exists row,
           nth_error (Table.getAllRows (fst result)) i = Some row
           /\ Row.id row = U.key_of (U.hash ks) (U.counter ks + i).
Proof.
  intros seriesTypes so m ks data names result Hdata Hno.
  pose proof (getTableFromSeriesOptions_without_id seriesTypes so m ks) as H.
  cbn zeta in H. rewrite Hdata in H. fold names in H.
  specialize (H Hno). fold result in H. rewrite H. cbn [fst snd].
  unfold Table.getRowCount, Table.getAllRows. cbn [Table.rows].
  split; [rewrite length_map, length_combine, length_seq; lia|].
  split; [reflexivity|].
  intros i Hi.
  destruct (nth_error data i) as [point|] eqn:Hp;
    [|apply nth_error_None in Hp; lia].
  rewrite nth_error_map, (nth_error_indexed _ _ _ Hp). cbn [option_map fst].
  eexists. split; reflexivity.
Qed.

Lemma X20_points_without_id_become_rows_witness :
  Table.getRowCount
    (fst (getTableFromSeriesOptions no_series_types
            (mkSeries None
               (Some [PPrimitive (CNumber 5);
                      PArray [CNumber 1; CNumber 2];
                      PObject [("y", CNumber 3)]]))
            [] sample_keys))
  = 3%nat.
Proof.
  refine (proj1 (X20_points_without_id_become_rows no_series_types
                   (mkSeries None
                      (Some [PPrimitive (CNumber 5);
                             PArray [CNumber 1; CNumber 2];
                             PObject [("y", CNumber 3)]]))
                   [] sample_keys _ eq_refl _)).
  intros [|[|[|i]]] point Hp; cbn [nth_error] in Hp;
    try (injection Hp as <-; exact I).
  destruct i; discriminate.
Defined.

(** X21: of primitive points, with no map of names and no series type,
    getTableFromSeriesOptions makes rows with the index of the point in
    column [x] and the point in column [y]. *)
Theorem X21_primitive_points :
  forall seriesTypes values ks,
    let seriesOptions := mkSeries None (Some (map PPrimitive values)) in
    let result := getTableFromSeriesOptions seriesTypes seriesOptions [] ks in
    Table.getAllRows (fst result)
    = map (fun iv : nat * CellType =>
             mkRow (U.key_of (U.hash ks) (U.counter ks + fst iv))
               [("x", CNumber (of_Z (Z.of_nat (fst iv)))); ("y", snd iv)])
        (combine (seq 0 (List.length values)) values)
    /\ snd result
       = U.mkKeys (U.hash ks) (U.counter ks + List.length values).
Proof.
  intros seriesTypes values ks so result.
  pose proof (getTableFromSeriesOptions_without_id seriesTypes
                (mkSeries None (Some (map PPrimitive values))) [] ks) as H.
  cbn zeta in H. cbn [series_data series_type resolve_map] in H.
  fold so in H. fold result in H. rewrite H.
  - cbn [fst snd]. unfold Table.getAllRows. cbn [Table.rows].
    rewrite length_map. split; [|reflexivity].
    generalize 0%nat. clear H.
    induction values as [|v values IH]; intro s; [reflexivity|].
    cbn [List.length seq map combine fst snd]. f_equal. apply IH.
  - intros i point Hp. rewrite nth_error_map in Hp.
    destruct (nth_error values i); [|discriminate].
    injection Hp as <-. exact I.
Qed.

(** X22: with a map of names that does not hold [__proto__], the value at
    a position of a positional point is the cell of its row under the name
    that the map gives to the position, or under the position itself where
    the map has no name, unless a later position of the point has the same
    name. *)
Theorem X22_positional_point_cells :
  forall seriesTypes seriesOptions pointArrayMap ks data i values j,
    let names := resolve_map seriesTypes seriesOptions pointArrayMap in
    let name := fun j => map_name names j (nat_to_string j) in
    let result :=
      getTableFromSeriesOptions seriesTypes seriesOptions pointArrayMap ks in
    ~ In "__proto__" names ->
    series_data seriesOptions = Some data ->
    (forall i point, nth_error data i = Some point ->
                     without_id names i point) ->
    nth_error data i = Some (PArray values) ->
    (j < List.length values)%nat ->
    name j <> "id" ->
    (forall j', (j < j' < List.length values)%nat -> name j' <> name j) ->
    exists row,
      nth_error (Table.getAllRows (fst result)) i = Some row
      /\ Row.id row = U.key_of (U.hash ks) (U.counter ks + i)
      /\ Row.getCell row (name j) = nth j values CUndefined.
Proof.
  intros seriesTypes so m ks data i values j names name result
    _ Hdata Hno Hp Hj Hid Hlast.
  pose proof (getTableFromSeriesOptions_without_id seriesTypes so m ks) as H.
  cbn zeta in H. rewrite Hdata in H. fold names in H.
  specialize (H Hno). fold result in H. rewrite H. cbn [fst].
  unfold Table.getAllRows. cbn [Table.rows].
  rewrite nth_error_map, (nth_error_indexed _ _ _ Hp).
  cbn [option_map fst snd point_cells].
  eexists. split; [reflexivity|]. split; [reflexivity|].
  unfold Row.getCell. cbn [Row.cells].
  rewrite get_remove_other by exact Hid.
  pose proof (get_fold_positions name values 0 [] j Hj Hlast) as Hget.
  cbn [Nat.add] in Hget. unfold name in Hget |- *.
  rewrite Hget. now rewrite (nth_error_nth' _ CUndefined Hj).
Qed.

Lemma X22_positional_point_cells_witness :
  exists row,
    nth_error
      (Table.getAllRows
         (fst (getTableFromSeriesOptions no_series_types
                 (mkSeries None
                    (Some [PArray [CNumber 1; CNumber 2; CNumber 7]]))
                 ["x"; "y"] sample_keys)))
      0
    = Some row
    /\ Row.id row = U.key_of "7x2k9qz-" 0
    /\ Row.getCell row "2" = CNumber 7.
Proof.
  refine (X22_positional_point_cells no_series_types
            (mkSeries None
               (Some [PArray [CNumber 1; CNumber 2; CNumber 7]]))
            ["x"; "y"] sample_keys _ 0%nat _ 2%nat _ eq_refl _ eq_refl _ _ _).
  - simpl. intuition discriminate.
  - intros [|i] point Hp; cbn [nth_error] in Hp;
      [injection Hp as <-; exact I | destruct i; discriminate].
  - cbn [List.length]. lia.
  - discriminate.
  - cbn [List.length]. intros j' Hj'. lia.
Defined.

End TablesMore.

(* ===================================================================== *)
(** * The name of a store class                                          *)
(* ===================================================================== *)

Section NameMore.

Import DataStoreRegistry Samples.

Lemma word_not_space c : is_word c = true -> is_space c = false.
Proof.
  destruct c as [[] [] [] [] [] [] [] []]; vm_compute; congruence.
Qed.

Lemma word_not_paren c : is_word c = true -> Ascii.eqb "(" c = false.
Proof.
  destruct c as [[] [] [] [] [] [] [] []]; vm_compute; congruence.
Qed.

Lemma run_star_stop total c l cs k :
  is_space c = false ->
  run total (star space) (c :: l) cs k = k (c :: l) cs.
Proof. intro Hc. cbn. now rewrite Hc. Qed.

Lemma run_star_end total cs k :
  run total (star space) [] cs k = k [] cs.
Proof. reflexivity. Qed.

Lemma run_plus_one total c l cs k :
  is_space c = false ->
  run total (plus space) (" "%char :: c :: l) cs k = k (c :: l) cs.
Proof. intro Hc. cbn. rewrite Hc. now destruct (k (c :: l) cs). Qed.

Lemma name_head_function c s :
  is_space c = false ->
  match_here (String.length ("function " ++ String c s)) name_head
    (chars ("function " ++ String c s))
  = Some (c :: chars s, []).
Proof.
  intro Hc. unfold match_here, name_head.
  cbn [cats run]. rewrite length_chars, Nat.eqb_refl.
  generalize (String.length ("function " ++ String c s)). intro total.
  change (chars ("function " ++ String c s))
    with (chars "function" ++ " "%char :: c :: chars s)%list.
  cbn. now rewrite Hc.
Qed.

Lemma run_literal total p : forall l cs k x,
  run total (cats (map chr p)) l cs k = Some x ->
  exists l', l = (p ++ l')%list /\ k l' cs = Some x.
Proof.
  induction p as [|a p IH]; intros l cs k x H.
  - exists l. split; [reflexivity | exact H].
  - assert (Hrun : run total (cats (map chr (a :: p))) l cs k
                   = run total (chr a) l cs
                       (fun rest' cs' =>
                          run total (cats (map chr p)) rest' cs' k))
      by (destruct p; reflexivity).
    rewrite Hrun in H. cbn [run chr] in H.
    destruct l as [|c l]; [discriminate|]. unfold is_char in H.
    destruct (Ascii.eqb a c) eqn:E; [|discriminate].
    apply Ascii.eqb_eq in E. subst c.
    apply IH in H. destruct H as (l' & -> & Hk).
    exists l'. split; [reflexivity | exact Hk].
Qed.

Lemma run_opt total a c l cs k :
  run total (opt a) (c :: l) cs k
  = match run total a (c :: l) cs
            (fun rest' cs' =>
               if (List.length rest' =? List.length (c :: l))%nat then None
               else k rest' cs')
    with
    | Some x => Some x
    | None => k (c :: l) cs
    end.
Proof. reflexivity. Qed.

Lemma close_fails_word total c l cs k :
  is_word c = true ->
  run total (Cat (star space) (chr "(")) (c :: l) cs k = None.
Proof.
  intro Hc. cbn [run]. rewrite run_star_stop by (now apply word_not_space).
  cbn [run chr]. unfold is_char. now rewrite word_not_paren.
Qed.

Lemma close_paren total l cs k :
  run total (Cat (star space) (chr "(")) ("("%char :: l) cs k = k l cs.
Proof. reflexivity. Qed.

(** The end of the pattern does not match where a word character stands
    that is not the start of a [DataStore] before the parenthesis. *)
Lemma name_tail_fails total c l :
  is_word c = true ->
  (forall l', c :: l = (chars "DataStore" ++ l')%list ->
              match l' with
              | [] => True
              | d :: _ => is_word d = true
              end) ->
  match_here total name_tail (c :: l) = None.
Proof.
  intros Hc Hnext. unfold match_here, name_tail. cbn [cats run].
  rewrite run_opt.
  destruct (run total (lit "DataStore") (c :: l) [] _) as [x|] eqn:E.
  - exfalso. apply run_literal in E. destruct E as (l' & El & Hk).
    specialize (Hnext l' El).
    destruct (List.length l' =? List.length (c :: l))%nat; [discriminate|].
    destruct l' as [|d l']; [discriminate|].
    change (run total (Cat (star space) (chr "(")) (d :: l') []
              (fun rest' cs => Some (rest', cs)) = Some x) in Hk.
    now rewrite close_fails_word in Hk.
  - change (run total (Cat (star space) (chr "(")) (c :: l) []
              (fun rest' cs => Some (rest', cs)) = None).
    now apply close_fails_word.
Qed.

Lemma name_tail_paren total rest :
  match_here total name_tail ("("%char :: rest) = Some (rest, []).
Proof. reflexivity. Qed.

Lemma name_tail_DataStore total rest :
  match_here total name_tail (chars "DataStore" ++ "("%char :: rest)
  = Some (rest, []).
Proof.
  unfold match_here, name_tail. cbn [cats run chars list_ascii_of_string app].
  rewrite run_opt.
  change (run total (lit "DataStore") _ [] ?k)
    with (k ("("%char :: rest) []).
  cbv beta. cbn [List.length].
  rewrite (proj2 (Nat.eqb_neq _ _)) by lia. reflexivity.
Qed.

(** The reluctant group stops at the first place where the end of the
    pattern matches. *)
Lemma reluctant_word_stops total tl : forall w acc,
  forallb is_word w = true ->
  (forall p c s, w = (p ++ c :: s)%list ->
                 match_here total name_tail (c :: s ++ tl) = None) ->
  (exists x, match_here total name_tail tl = Some x) ->
  reluctant_word total acc (w ++ tl) = Some (List.rev acc ++ w)%list.
Proof.
  induction w as [|c w IH]; intros acc Hw Hfail [x Hx].
  - cbn [app]. rewrite app_nil_r.
    destruct tl; cbn [reluctant_word]; now rewrite Hx.
  - cbn [forallb] in Hw. apply andb_prop in Hw. destruct Hw as [Hc Hw].
    cbn [app reluctant_word].
    rewrite (Hfail [] c w eq_refl), Hc.
    rewrite IH; [cbn [List.rev]; now rewrite <- app_assoc | exact Hw | | now exists x].
    intros p d s E. apply (Hfail (c :: p) d s). cbn [app]. now rewrite E.
Qed.

Lemma forallb_suffix {A : Type} (f : A -> bool) p s :
  forallb f (p ++ s) = true -> forallb f s = true.
Proof. rewrite forallb_app. intro H. now apply andb_prop in H. Qed.

Lemma match_name_function total_text w name :
  total_text = ("function " ++ w)%string ->
  forall c l, chars w = c :: l -> is_space c = false ->
  reluctant_word (String.length total_text) [] (chars w) = Some name ->
  match_name total_text = Some (str name).
Proof.
  intros -> c l Hw Hc Hname. unfold match_name.
  assert (E : w = String c (str l)).
  { rewrite <- (str_chars w), Hw. reflexivity. }
  clear Hw. subst w. rewrite name_head_function by exact Hc.
  change (c :: chars (str l)) with (chars (String c (str l))).
  now rewrite Hname.
Qed.

Lemma str_append p q : str (p ++ q) = (str p ++ str q)%string.
Proof. induction p as [|c p IH]; simpl; [reflexivity | now rewrite IH]. Qed.

(** Inside a word that is followed by [DataStore(], what follows a
    [DataStore] starts with a word character. *)
Lemma word_after_DataStore c s rest l' :
  forallb is_word (c :: s) = true ->
  (c :: s ++ chars "DataStore" ++ "("%char :: rest)%list
  = (chars "DataStore" ++ l')%list ->
  match l' with
  | [] => True
  | d :: _ => is_word d = true
  end.
Proof.
  intros Hw E. cbn [chars list_ascii_of_string app] in E.
  do 8 (destruct s as [|? s];
        [cbn [app] in E; inversion E; subst; reflexivity|]).
  cbn [app] in E. inversion E; subst. clear E.
  destruct s as [|d s]; [reflexivity|].
  cbn [app]. apply (proj1 (forallb_forall _ _) Hw). simpl. tauto.
Qed.

(** Inside a word that is followed by [(], a [DataStore] is followed by
    a word character, unless the word ends there. *)
Lemma word_after_DataStore_plain c s rest l' :
  forallb is_word (c :: s) = true ->
  c :: s <> chars "DataStore" ->
  (c :: s ++ "("%char :: rest)%list = (chars "DataStore" ++ l')%list ->
  match l' with
  | [] => True
  | d :: _ => is_word d = true
  end.
Proof.
  intros Hw Hne E. cbn [chars list_ascii_of_string app] in E, Hne.
  do 8 (destruct s as [|? s]; [cbn [app] in E; inversion E|]).
  cbn [app] in E. inversion E; subst. clear E.
  destruct s as [|d s]; [now elim Hne|].
  cbn [app]. apply (proj1 (forallb_forall _ _) Hw). simpl. tauto.
Qed.

Lemma first_not_space (w : list ascii) d tl :
  forallb is_word w = true -> is_space d = false ->
  exists c l, (w ++ d :: tl)%list = c :: l /\ is_space c = false.
Proof.
  intros Hw Hd. destruct w as [|c w].
  - exists d, tl. now split.
  - exists c, (w ++ d :: tl)%list. split; [reflexivity|].
    cbn [forallb] in Hw. apply andb_prop in Hw.
    now apply word_not_space.
Qed.

(** X23: the name of a class whose text is [function], a space, a word,
    [DataStore] and a parenthesis is the word: the suffix [DataStore] is
    not part of the name, whatever the word. *)
Theorem X23_getName_strips_DataStore :
  forall (StoreClass : Type) (toString : StoreClass -> string)
         (dataStore : StoreClass) (w rest : string),
    forallb is_word (chars w) = true ->
    toString dataStore = ("function " ++ w ++ "DataStore(" ++ rest)%string ->
    getName StoreClass toString dataStore = w.
Proof.
  intros StoreClass toString dataStore w rest Hw Htext.
  unfold getName. rewrite Htext.
  assert (Hchars : chars (w ++ "DataStore(" ++ rest)
                   = (chars w ++ chars "DataStore"
                        ++ "("%char :: chars rest)%list)
    by (now rewrite chars_append).
  destruct (first_not_space (chars w) "D"
              (chars "ataStore" ++ "("%char :: chars rest) Hw eq_refl)
    as (c & l & Hcl & Hc).
  rewrite (match_name_function _ (w ++ "DataStore(" ++ rest) (chars w)
             eq_refl c l).
  - now rewrite str_chars.
  - rewrite Hchars. exact Hcl.
  - exact Hc.
  - rewrite Hchars.
    rewrite reluctant_word_stops; [reflexivity | exact Hw | |].
    + intros p d s E. rewrite E in Hw. apply forallb_suffix in Hw.
      apply name_tail_fails.
      * cbn [forallb] in Hw. now apply andb_prop in Hw.
      * intros l' El. now apply (word_after_DataStore d s (chars rest)).
    + eexists. apply name_tail_DataStore.
Qed.

Lemma X23_getName_strips_DataStore_witness :
  getName string (fun text => text) csv_store_text = "CSV".
Proof.
  apply (X23_getName_strips_DataStore string (fun text => text)
           csv_store_text "CSV" "table, options) { }");
    reflexivity.
Defined.

(** X24: the name of a class whose text is [function], a space, a word and
    a parenthesis is the word, unless the word ends in [DataStore]. *)
Theorem X24_getName_of_plain_class :
  forall (StoreClass : Type) (toString : StoreClass -> string)
         (dataStore : StoreClass) (w rest : string),
    forallb is_word (chars w) = true ->
    (forall p, w <> (p ++ "DataStore")%string) ->
    toString dataStore = ("function " ++ w ++ "(" ++ rest)%string ->
    getName StoreClass toString dataStore = w.
Proof.
  intros StoreClass toString dataStore w rest Hw Hplain Htext.
  unfold getName. rewrite Htext.
  assert (Hchars : chars (w ++ "(" ++ rest)
                   = (chars w ++ "("%char :: chars rest)%list)
    by (now rewrite chars_append).
  destruct (first_not_space (chars w) "(" (chars rest) Hw eq_refl)
    as (c & l & Hcl & Hc).
  rewrite (match_name_function _ (w ++ "(" ++ rest) (chars w)
             eq_refl c l).
  - now rewrite str_chars.
  - rewrite Hchars. exact Hcl.
  - exact Hc.
  - rewrite Hchars.
    rewrite reluctant_word_stops; [reflexivity | exact Hw | |].
    + intros p d s E. pose proof Hw as Hs.
      rewrite E in Hs. apply forallb_suffix in Hs.
      apply name_tail_fails.
      * cbn [forallb] in Hs. now apply andb_prop in Hs.
      * intros l' El.
        apply (word_after_DataStore_plain d s (chars rest)); try assumption.
        intro Hd. apply (Hplain (str p)).
        rewrite <- (str_chars w), E, Hd, str_append. reflexivity.
    + eexists. apply name_tail_paren.
Qed.

Lemma X24_getName_of_plain_class_witness :
  getName string (fun text => text) "function Sheets(table) { }" = "Sheets".
Proof.
  apply (X24_getName_of_plain_class string (fun text => text)
           "function Sheets(table) { }" "Sheets" "table) { }");
    [reflexivity | | reflexivity].
  intros p E. apply (f_equal String.length) in E.
  rewrite <- (length_chars (p ++ "DataStore")), chars_append, length_app in E.
  cbn [String.length chars list_ascii_of_string List.length] in E. lia.
Defined.

End NameMore.

(* ===================================================================== *)
(** * Columns, a table from them, and columns again                       *)
(* ===================================================================== *)

Section RoundTripWithoutHeaders.

Import DataParser Spec Samples.










End RoundTripWithoutHeaders.
